(** * stockdost: the price and forecast endpoints of [app.py]

    A shallow embedding of [src/app.py] and of the library calls it makes
    (pandas series with a date index, month-end resampling with its
    out-of-bounds error, month-end date ranges, [strftime], Flask's
    [jsonify]), followed by the properties of the two request handlers.

    Conventions.
    - A close price is an IEEE binary64 value, here a primitive [float].
    - A pandas [Timestamp] of a daily bar is a calendar date; the time of day
      and the time zone of the bars play no role in the code and are left out.
    - The market-data provider and the statistics library are outside the
      repository: their answers are the fields of a [World]. *)

From Stdlib Require Import ZArith List String Ascii Bool Lia Sorted FinFun.
From Stdlib Require Import PrimFloat.
Import ListNotations.

Local Open Scope Z_scope.
Local Open Scope list_scope.

(* ================================================================== *)
(** ** Python: exceptions, the logger, and the effect of a call *)
(* ================================================================== *)

Module Python.

(** An exception object: its class and the text [str(e)] gives. *)
Record exn : Type := mkExn { exn_class : string; exn_text : string }.

Definition str (e : exn) : string := exn_text e.

Definition AttributeError (text : string) : exn := mkExn "AttributeError" text.
Definition IndexError (text : string) : exn := mkExn "IndexError" text.
Definition KeyError (key : string) : exn :=
  mkExn "KeyError" ("'" ++ key ++ "'")%string.

Inductive level : Type := INFO | ERROR.

Record LogRecord : Type :=
  mkLog { log_level : level; log_msg : string; log_extra : list (string * string) }.

(** A call either returns a value or raises; either way it may have
    appended records to the process-wide log. *)
Inductive outcome (A : Type) : Type :=
| Return (a : A)
| Raise (e : exn).
Arguments Return {A} a.
Arguments Raise {A} e.

Definition Py (A : Type) : Type := list LogRecord -> outcome A * list LogRecord.

Definition ret {A} (a : A) : Py A := fun log => (Return a, log).

Definition raise {A} (e : exn) : Py A := fun log => (Raise e, log).

Definition bind {A B} (c : Py A) (k : A -> Py B) : Py B :=
  fun log =>
    match c log with
    | (Return a, log') => k a log'
    | (Raise e, log') => (Raise e, log')
    end.

(** [try: body  except Exception as e: handler(e)] *)
Definition try_except {A} (body : Py A) (handler : exn -> Py A) : Py A :=
  fun log =>
    match body log with
    | (Return a, log') => (Return a, log')
    | (Raise e, log') => handler e log'
    end.

(** A call into a library whose answer is given: [inl e] raises [e]. *)
Definition call {A} (r : exn + A) : Py A :=
  match r with
  | inl e => raise e
  | inr a => ret a
  end.

(** Modelled from the spec: [utils/logging.py] is not among the sources;
    the spec lists the logger as [info(msg, fields)] and [error(msg, fields)].
    A call appends one record to the log and returns. *)
Definition logger_info (msg : string) (extra : list (string * string)) : Py unit :=
  fun log => (Return tt, log ++ [mkLog INFO msg extra]).

(** Modelled from the spec: [logger.error(msg)] of the same logger. *)
Definition logger_error (msg : string) : Py unit :=
  fun log => (Return tt, log ++ [mkLog ERROR msg []]).

(** A list comprehension whose element expression may raise. *)
Fixpoint comprehension {A B} (f : A -> Py B) (xs : list A) : Py (list B) :=
  match xs with
  | [] => ret []
  | x :: xs' =>
      bind (f x) (fun y => bind (comprehension f xs') (fun ys => ret (y :: ys)))
  end.

End Python.

Import Python.

Declare Scope py_scope.
Delimit Scope py_scope with py.
Notation "x <- c ;; k" := (bind c (fun x => k))
  (at level 61, c at next level, right associativity) : py_scope.
Notation "c ;; k" := (bind c (fun _ => k))
  (at level 61, right associativity) : py_scope.

(* ================================================================== *)
(** ** Calendar dates *)
(* ================================================================== *)

Module Calendar.

(** A date. pandas holds a date as a 64-bit count of nanoseconds, so the
    labels of an index lie between [Timestamp_min] and [Timestamp_max] below;
    the calls that build new dates ([resample], [date_range]) check that
    range and raise outside it. *)
Record Timestamp : Type := mkTimestamp { year : Z; month : Z; day : Z }.

Definition is_leap_year (y : Z) : bool :=
  ((y mod 4 =? 0) && negb (y mod 100 =? 0)) || (y mod 400 =? 0).

Definition days_in_month (y m : Z) : Z :=
  match m with
  | 2 => if is_leap_year y then 29 else 28
  | 4 | 6 | 9 | 11 => 30
  | _ => 31
  end.

(** A date of the proleptic Gregorian calendar. *)
Definition valid_date (t : Timestamp) : bool :=
  (1 <=? month t) && (month t <=? 12) &&
  (1 <=? day t) && (day t <=? days_in_month (year t) (month t)).

(** Chronological order: lexicographic on (year, month, day). *)
Definition ts_compare (a b : Timestamp) : comparison :=
  match year a ?= year b with
  | Eq => match month a ?= month b with
          | Eq => day a ?= day b
          | c => c
          end
  | c => c
  end.

Definition ts_ltb (a b : Timestamp) : bool :=
  match ts_compare a b with Lt => true | _ => false end.

Definition ts_leb (a b : Timestamp) : bool :=
  match ts_compare a b with Gt => false | _ => true end.

(** Months counted from year 0: the calendar month a date falls in. *)
Definition month_index (t : Timestamp) : Z := year t * 12 + (month t - 1).

(** The last day of the month with index [m]. *)
Definition month_end (m : Z) : Timestamp :=
  let y := m / 12 in
  let mo := m mod 12 + 1 in
  mkTimestamp y mo (days_in_month y mo).

(** [MonthEnd.is_on_offset]: the date is the last day of its month. *)
Definition is_month_end (t : Timestamp) : bool :=
  day t =? days_in_month (year t) (month t).

(** The month-end that follows the month of [t]. *)
Definition next_month_end (t : Timestamp) : Timestamp :=
  month_end (month_index t + 1).

(** [Timestamp.max] is 2262-04-11 (64-bit nanoseconds since 1970). *)
Definition Timestamp_max : Timestamp := mkTimestamp 2262 4 11.

(** [Timestamp.min] is 1677-09-21 00:12:43: the first date whose midnight is
    a timestamp is 1677-09-22. *)
Definition Timestamp_min : Timestamp := mkTimestamp 1677 9 22.

(** The midnight of the date is a pandas timestamp. The labels of a
    [DatetimeIndex] are such dates; a call that builds a date outside the
    range raises [OutOfBoundsDatetime]. *)
Definition representable (t : Timestamp) : bool :=
  ts_leb Timestamp_min t && ts_leb t Timestamp_max.

(** [t - MonthEnd()]: the last month-end before [t]. *)
Definition minus_month_end (t : Timestamp) : Timestamp :=
  month_end (month_index t - 1).

(** [t + MonthEnd()]: the first month-end after [t]. *)
Definition plus_month_end (t : Timestamp) : Timestamp :=
  if is_month_end t then next_month_end t else month_end (month_index t).

(** *** [strftime("%d-%m-%Y")]

    Day and month are zero-padded to two digits; a [Timestamp]'s year lies
    in 1677..2262, so [%Y] prints four digits. *)

Definition digit (n : Z) : ascii := ascii_of_nat (48 + Z.to_nat n).

Definition pad2 (n : Z) : string :=
  String (digit (n / 10)) (String (digit (n mod 10)) EmptyString).

Definition strftime (t : Timestamp) : string :=
  (pad2 (day t) ++ "-" ++ pad2 (month t) ++ "-"
     ++ pad2 (year t / 100) ++ pad2 (year t mod 100))%string.

End Calendar.

Import Calendar.

(* ================================================================== *)
(** ** pandas: series indexed by date *)
(* ================================================================== *)

Module Pandas.

(** A [Series] with a [DatetimeIndex]: (label, value) pairs in index order. *)
Definition Series : Type := list (Timestamp * float).

Definition Series_index (s : Series) : list Timestamp := map fst s.
Definition tolist (s : Series) : list float := map snd s.

(** The index is ascending (not necessarily strictly). *)
Fixpoint is_monotonic_increasing (s : Series) : bool :=
  match s with
  | [] => true
  | x :: s' =>
      match s' with
      | [] => true
      | y :: _ => ts_leb (fst x) (fst y) && is_monotonic_increasing s'
      end
  end.

(** Resampling first sorts an index that is not ascending, with a stable
    sort: rows with equal labels keep their order. *)
Fixpoint insert_row (x : Timestamp * float) (s : Series) : Series :=
  match s with
  | [] => [x]
  | y :: s' => if ts_leb (fst x) (fst y) then x :: s else y :: insert_row x s'
  end.

Definition sort_index (s : Series) : Series := fold_right insert_row [] s.

(** [last()] of a group: its last value that is not NaN, NaN if none. *)
Definition last_valid (vs : list float) : float :=
  match find (fun v => negb (is_nan v)) (rev vs) with
  | Some v => v
  | None => nan
  end.

Definition in_month (m : Z) (row : Timestamp * float) : bool :=
  month_index (fst row) =? m.

Fixpoint month_range (lo : Z) (n : nat) : list Z :=
  match n with
  | O => []
  | S k => lo :: month_range (lo + 1) k
  end.

(** The bins of [resample("M")] for a sorted series: every calendar month
    from the month of the first row to the month of the last row. *)
Definition month_bins (sorted : Series) : list Z :=
  match sorted with
  | [] => []
  | first :: _ =>
      let lo := month_index (fst first) in
      let hi := month_index (fst (last sorted first)) in
      month_range lo (Z.to_nat (hi - lo + 1))
  end.

(** The rows [.last()] yields over the bins: one row per bin, labelled by the
    month-end, holding [last()] of the rows of that month (NaN for a month
    without rows). *)
Definition last_per_month (s : Series) : Series :=
  let sorted := sort_index s in
  map (fun m => (month_end m, last_valid (tolist (filter (in_month m) sorted))))
      (month_bins sorted).

(** The bin edges of [resample("M")]: the first edge is the first label
    minus one month-end, the last edge is the last label plus one month-end.
    Both must be timestamps; an empty series has no edges. *)
Definition edges_representable (sorted : Series) : bool :=
  match sorted with
  | [] => true
  | first :: _ =>
      representable (minus_month_end (fst first))
      && representable (plus_month_end (fst (last sorted first)))
  end.

(** [s.resample("M").last()]: the rows of [last_per_month] when the bin edges
    exist; [None] stands for the [OutOfBoundsDatetime] pandas raises when an
    edge leaves the range of timestamps. *)
Definition resample_M_last (s : Series) : option Series :=
  if edges_representable (sort_index s) then Some (last_per_month s) else None.

(** [MonthEnd.rollforward]: a date that is not a month-end moves to the end
    of its month. *)
Definition rollforward (t : Timestamp) : Timestamp :=
  if is_month_end t then t else month_end (month_index t).

(** The generation loop of [date_range]: [cur], [cur + MonthEnd()], ... *)
Fixpoint generate_range (cur : Timestamp) (periods : nat) : list Timestamp :=
  match periods with
  | O => []
  | S k => cur :: generate_range (next_month_end cur) k
  end.

(** [pd.date_range(start, periods=periods, freq="M")]: [periods] month-ends
    from [start] rolled forward. A date past [Timestamp.max] cannot be
    represented: [None] stands for the [OutOfBoundsDatetime] pandas raises. *)
Definition date_range_M (start : Timestamp) (periods : nat) : option (list Timestamp) :=
  let dates := generate_range (rollforward start) periods in
  if forallb (fun t => ts_leb t Timestamp_max) dates then Some dates else None.

(** [s.iloc[-1]] *)
Definition iloc_last (s : Series) : Py float :=
  match s with
  | [] => raise (IndexError "single positional indexer is out-of-bounds")
  | x :: _ => ret (snd (last s x))
  end.

(** [s.index[-1]] *)
Definition index_last (s : Series) : Py Timestamp :=
  match s with
  | [] => raise (IndexError "index -1 is out of bounds for axis 0 with size 0")
  | x :: _ => ret (fst (last s x))
  end.

End Pandas.

Import Pandas.

(* ================================================================== *)
(** ** Flask: JSON bodies and responses *)
(* ================================================================== *)

Module Flask.

#[local] Set Warnings "-register-all".

(** The value [jsonify] serialises: numbers, strings, lists, and dicts with
    their keys in insertion order. *)
Inductive json : Type :=
| JNum (x : float)
| JStr (s : string)
| JArr (xs : list json)
| JObj (fields : list (string * json)).

Definition dict : Type := list (string * json).

Definition jsonify (d : dict) : json := JObj d.

(** What a view returns: [jsonify(d)] alone has status 200, the pair
    [(jsonify(d), code)] has status [code]. *)
Record Response : Type := mkResponse { body : json; status : nat }.

(** Dictionary lookup; [None] when the key is absent. *)
Fixpoint lookup (key : string) (d : dict) : option json :=
  match d with
  | [] => None
  | (k, v) :: d' => if String.eqb k key then Some v else lookup key d'
  end.

(** [d[key]] *)
Definition getitem (d : dict) (key : string) : Py json :=
  match lookup key d with
  | Some v => ret v
  | None => raise (KeyError key)
  end.

(** A field of a JSON object body. *)
Definition field (key : string) (j : json) : option json :=
  match j with
  | JObj d => lookup key d
  | _ => None
  end.

End Flask.

Import Flask.

(* ================================================================== *)
(** ** The outside world *)
(* ================================================================== *)

(** One row of the frame [Ticker.history] returns; only the [Close] column is
    read by the service. *)
Record Row : Type := mkRow { Date : Timestamp; Close : float }.

Definition DataFrame : Type := list Row.

(** [df.empty] *)
Definition empty (df : DataFrame) : bool :=
  match df with [] => true | _ :: _ => false end.

(** [df["Close"]] *)
Definition Close_column (df : DataFrame) : Series :=
  map (fun r => (Date r, Close r)) df.

(** A fitted model: [results.forecast(steps=n)] returns values or raises. *)
Record SARIMAXResults : Type :=
  mkResults { forecast_method : nat -> exn + list float }.

(** A model before fitting: [model.fit(disp=False)]. *)
Record SARIMAXModel : Type :=
  mkModel { fit_method : exn + SARIMAXResults }.

Record World : Type := mkWorld {
  (** [yf.Ticker(ticker).history(period=period)] *)
  history : string -> string -> exn + DataFrame;
  (** [SARIMAX(data, order=order, seasonal_order=seasonal_order)] *)
  SARIMAX : Series -> Z * Z * Z -> Z * Z * Z * Z -> exn + SARIMAXModel;
  (** The exception pandas raises for a date past [Timestamp.max]. *)
  OutOfBoundsDatetime : exn
}.

(** A pandas call without a result raises the out-of-bounds error. *)
Definition or_out_of_bounds {A : Type} (w : World) (r : option A) : Py A :=
  match r with
  | Some a => ret a
  | None => raise (OutOfBoundsDatetime w)
  end.

(** [pd.date_range(start, periods=periods, freq="M")] as a call. *)
Definition date_range (w : World) (start : Timestamp) (periods : nat)
  : Py (list Timestamp) :=
  match date_range_M start periods with
  | Some dates => ret dates
  | None => raise (OutOfBoundsDatetime w)
  end.

(* ================================================================== *)
(** ** [app.py] *)
(* ================================================================== *)

Local Open Scope py_scope.
Local Open Scope string_scope.

(** [fetch_stock_data(ticker, period="5y")] *)
Definition fetch_stock_data (w : World) (ticker : string) (period : string)
  : Py (option Series) :=
  try_except
    (df <- call (history w ticker period) ;;
     if empty df then ret None
     else ret (Some (Close_column df)))
    (fun e =>
       logger_error ("Error fetching stock data for " ++ ticker ++ ": " ++ str e) ;;
       ret None).

Definition default_period : string := "5y".

(** [resample_monthly(data)]: [data.resample("M").last()]; [None] stands for
    the [OutOfBoundsDatetime] the call raises. *)
Definition resample_monthly (data : Series) : option Series := resample_M_last data.

(** [fit_sarimax(data)] *)
Definition fit_sarimax (w : World) (data : Series) : Py (option SARIMAXResults) :=
  try_except
    (model <- call (SARIMAX w data (1, 1, 1)%Z (1, 1, 1, 12)%Z) ;;
     results <- call (fit_method model) ;;
     ret (Some results))
    (fun e =>
       logger_error ("Error fitting SARIMAX model: " ++ str e) ;;
       ret None).

(** [forecast(model, steps)] *)
Definition forecast (model : SARIMAXResults) (steps : nat) : Py (option (list float)) :=
  try_except
    (values <- call (forecast_method model steps) ;;
     ret (Some values))
    (fun e =>
       logger_error ("Error generating forecast: " ++ str e) ;;
       ret None).

(** [df.iloc[-1]] where [df] is what [fetch_stock_data] returned: [None] has
    no attribute [iloc]. *)
Definition iloc_last_of (df : option Series) : Py float :=
  match df with
  | None => raise (AttributeError "'NoneType' object has no attribute 'iloc'")
  | Some s => iloc_last s
  end.

Definition invalid_ticker (ticker : string) : Response :=
  mkResponse (jsonify [("error", JStr ("Invalid ticker symbol: " ++ ticker))]) 400.

(** The [try] block of [get_current_value]. *)
Definition get_current_value_try (w : World) (ticker : string) : Py Response :=
  df <- fetch_stock_data w (ticker ++ ".KA") default_period ;;
  current_price <- iloc_last_of df ;;
  ret (mkResponse (jsonify [("currentPrice", JNum current_price)]) 200).

(** [@app.route("/current-value/<ticker>")] *)
Definition get_current_value (w : World) (ticker : string) : Py Response :=
  logger_info ("Fetching current value for ticker: " ++ ticker)
              [("logField", "current-value")] ;;
  try_except
    (get_current_value_try w ticker)
    (fun e =>
       logger_error ("Error fetching current value for " ++ ticker ++ ": " ++ str e) ;;
       ret (invalid_ticker ticker)).

Definition server_error (text : string) : Response :=
  mkResponse (jsonify [("error", JStr text)]) 500.

(** One entry of [forecast_data]. *)
Definition forecast_entry (p : Timestamp * float) : dict :=
  [("Date", JStr (strftime (fst p))); ("Forecast", JNum (snd p))].

(** The [try] block of [get_forecast]. *)
Definition get_forecast_try (w : World) (ticker : string) : Py Response :=
  df <- fetch_stock_data w (ticker ++ ".KA") default_period ;;
  match df with
  | None => ret (invalid_ticker ticker)
  | Some df =>
      current_price <- iloc_last df ;;
      monthly_data <- or_out_of_bounds w (resample_monthly df) ;;
      model <- fit_sarimax w monthly_data ;;
      match model with
      | None => ret (server_error "Failed to fit forecasting model")
      | Some model =>
          let forecast_steps := 6%nat in
          future_forecast <- forecast model forecast_steps ;;
          match future_forecast with
          | None => ret (server_error "Failed to generate forecast")
          | Some future_forecast =>
              last_label <- index_last monthly_data ;;
              dates <- date_range w last_label (forecast_steps + 1) ;;
              let future_dates := tl dates in
              let forecast_data :=
                map forecast_entry (combine future_dates future_forecast) in
              let historical_dates := map strftime (Series_index monthly_data) in
              let historical_values := tolist monthly_data in
              forecastDates <- comprehension (fun d => getitem d "Date") forecast_data ;;
              forecastValues <- comprehension (fun d => getitem d "Forecast") forecast_data ;;
              ret (mkResponse
                     (jsonify
                        [("currentPrice", JNum current_price);
                         ("forecast", JArr (map JObj forecast_data));
                         ("historicalDates", JArr (map JStr historical_dates));
                         ("historicalValues", JArr (map JNum historical_values));
                         ("forecastDates", JArr forecastDates);
                         ("forecastValues", JArr forecastValues)])
                     200)
          end
      end
  end.

(** [@app.route("/forecast/<ticker>")] *)
Definition get_forecast (w : World) (ticker : string) : Py Response :=
  logger_info ("Generating forecast for ticker: " ++ ticker)
              [("logField", "forecast")] ;;
  try_except
    (get_forecast_try w ticker)
    (fun e =>
       logger_error ("Error in forecast for " ++ ticker ++ ": " ++ str e) ;;
       ret (server_error (str e))).

(* ================================================================== *)
(** ** Sample worlds *)
(* ================================================================== *)

(** Four trading days of January 2024. *)
Definition january_rows : DataFrame :=
  [ mkRow (mkTimestamp 2024 1 2) 100%float;
    mkRow (mkTimestamp 2024 1 3) 102%float;
    mkRow (mkTimestamp 2024 1 4) 101%float;
    mkRow (mkTimestamp 2024 1 5) 105%float ].

(** A fitted model that forecasts a constant, as many values as asked. *)
Definition flat_results (v : float) : SARIMAXResults :=
  mkResults (fun steps => inr (repeat v steps)).

Definition provider_error : exn := mkExn "HTTPError" "404 Client Error".
Definition fit_error : exn := mkExn "LinAlgError" "Schur decomposition solver error.".
Definition forecast_error : exn := mkExn "ValueError" "Prediction must have `end` after `start`.".
Definition out_of_bounds : exn :=
  mkExn "OutOfBoundsDatetime" "Out of bounds nanosecond timestamp".

(** The provider answers every symbol with [rows]; fitting and forecasting
    succeed. *)
Definition world_of (rows : DataFrame) : World :=
  mkWorld (fun _ _ => inr rows)
          (fun _ _ _ => inr (mkModel (inr (flat_results 105%float))))
          out_of_bounds.

Definition world_ok : World := world_of january_rows.
Definition world_empty : World := world_of [].

Definition world_down : World :=
  mkWorld (fun _ _ => inl provider_error)
          (fun _ _ _ => inr (mkModel (inr (flat_results 105%float))))
          out_of_bounds.

Definition world_no_fit : World :=
  mkWorld (fun _ _ => inr january_rows)
          (fun _ _ _ => inr (mkModel (inl fit_error)))
          out_of_bounds.

Definition world_no_forecast : World :=
  mkWorld (fun _ _ => inr january_rows)
          (fun _ _ _ => inr (mkModel (inr (mkResults (fun _ => inl forecast_error)))))
          out_of_bounds.

(** Bars of December 2261: six months later is past [Timestamp.max]. *)
Definition world_late : World :=
  world_of [ mkRow (mkTimestamp 2261 12 30) 100%float ].

(** The response of a run of [get_forecast] from an empty log; a raised
    exception cannot escape the handler, the default stands for that case. *)
Definition response_of (w : World) (ticker : string) : Response :=
  match fst (get_forecast w ticker []) with
  | Return r => r
  | Raise _ => mkResponse (JObj []) 0
  end.

(** A monthly series with a month missing: January and March 2024. *)
Definition monthly_sample : Series :=
  [ (mkTimestamp 2024 1 31, 105%float); (mkTimestamp 2024 3 31, 110%float) ].

(** A close on 30 January followed by a missing close on 31 January. *)
Definition missing_close_sample : Series :=
  [ (mkTimestamp 2024 1 30, 100%float); (mkTimestamp 2024 1 31, nan) ].

(* ================================================================== *)
(** ** Vocabulary of the properties *)
(* ================================================================== *)

Definition fetch_error_record (ticker : string) (e : exn) : LogRecord :=
  mkLog ERROR ("Error fetching stock data for " ++ ticker ++ ": " ++ str e) [].

(** The run appended at least one record to the log. *)
Definition logs_a_failure (log log' : list LogRecord) : Prop :=
  exists records, records <> [] /\ log' = (log ++ records)%list.

(** The fetch contract as the specification words it: the fetch never raises;
    whenever the provider has no rows or raises, it returns [None] and has
    logged the failure; otherwise it returns the close series. *)
Definition fetch_contract_as_written (w : World) (ticker period : string) : Prop :=
  forall log, exists r log',
    fetch_stock_data w ticker period log = (Return r, log') /\
    match history w ticker period with
    | inr (row :: rows) => r = Some (Close_column (row :: rows))
    | _ => r = None /\ logs_a_failure log log'
    end.

Definition current_value_info (ticker : string) : LogRecord :=
  mkLog INFO ("Fetching current value for ticker: " ++ ticker)
        [("logField", "current-value")].

Definition current_value_error (ticker : string) (e : exn) : LogRecord :=
  mkLog ERROR ("Error fetching current value for " ++ ticker ++ ": " ++ str e) [].

Definition no_iloc : exn :=
  AttributeError "'NoneType' object has no attribute 'iloc'".

Definition forecast_info (ticker : string) : LogRecord :=
  mkLog INFO ("Generating forecast for ticker: " ++ ticker) [("logField", "forecast")].

Definition forecast_error_record (ticker : string) (e : exn) : LogRecord :=
  mkLog ERROR ("Error in forecast for " ++ ticker ++ ": " ++ str e) [].

Definition fit_error_record (e : exn) : LogRecord :=
  mkLog ERROR ("Error fitting SARIMAX model: " ++ str e) [].

Definition generate_error_record (e : exn) : LogRecord :=
  mkLog ERROR ("Error generating forecast: " ++ str e) [].

Definition empty_index : exn :=
  IndexError "index -1 is out of bounds for axis 0 with size 0".

(** [SARIMAX(...)] followed by [.fit(disp=False)]. *)
Definition fitted (w : World) (data : Series) : exn + SARIMAXResults :=
  match SARIMAX w data (1, 1, 1)%Z (1, 1, 1, 12)%Z with
  | inl e => inl e
  | inr model => fit_method model
  end.

(** The body of a 200 response of the forecast endpoint. *)
Definition forecast_payload (current_price : float) (monthly_data : Series)
    (future_dates : list Timestamp) (future_forecast : list float) : json :=
  let pairs := combine future_dates future_forecast in
  JObj [("currentPrice", JNum current_price);
        ("forecast", JArr (map JObj (map forecast_entry pairs)));
        ("historicalDates", JArr (map JStr (map strftime (Series_index monthly_data))));
        ("historicalValues", JArr (map JNum (tolist monthly_data)));
        ("forecastDates", JArr (map (fun p => JStr (strftime (fst p))) pairs));
        ("forecastValues", JArr (map (fun p => JNum (snd p)) pairs))].

Definition ts_lt (a b : Timestamp) : Prop := ts_ltb a b = true.

(** A row labelled by the end of month [m]. *)
Definition month_row (value : Z -> float) (m : Z) : Timestamp * float :=
  (month_end m, value m).

(** The row [resample("M").last()] produces for the bin of month [m]. *)
Definition bin_row (sorted : Series) (m : Z) : Timestamp * float :=
  (month_end m, last_valid (tolist (filter (in_month m) sorted))).

Definition valid_index (s : Series) : bool :=
  forallb (fun row => valid_date (fst row)) s.

Definition no_missing (s : Series) : bool :=
  forallb (fun row => negb (is_nan (snd row))) s.

Definition price_series (s : Series) : bool :=
  valid_index s && is_monotonic_increasing s && no_missing s.

(** A series that is already monthly: month-end labels, at most one row per
    calendar month, in ascending order. *)
Fixpoint months_increasing (s : Series) : bool :=
  match s with
  | [] => true
  | x :: s' =>
      match s' with
      | [] => true
      | y :: _ => (month_index (fst x) <? month_index (fst y))%Z && months_increasing s'
      end
  end.

Definition already_monthly (s : Series) : bool :=
  forallb (fun row => valid_date (fst row) && is_month_end (fst row)) s
  && months_increasing s.

(** Each date of [ds] is a month-end, the one that ends the month after the
    date before it ([prev] for the first), and is later than that date. *)
Fixpoint follows_month_by_month (prev : Timestamp) (ds : list Timestamp) : Prop :=
  match ds with
  | [] => True
  | d :: ds' =>
      is_month_end d = true /\ d = next_month_end prev /\ ts_lt prev d
      /\ follows_month_by_month d ds'
  end.

(** The library's side of the forecast: a fitted model asked for [steps]
    values returns that many. *)
Definition forecast_contract (w : World) : Prop :=
  forall data results steps values,
    fitted w data = inr results ->
    forecast_method results steps = inr values ->
    List.length values = steps.

(** Adjacent rows lie in adjacent calendar months: no month is skipped. *)
Fixpoint consecutive_months (s : Series) : bool :=
  match s with
  | [] => true
  | x :: s' =>
      match s' with
      | [] => true
      | y :: _ =>
          (month_index (fst y) =? month_index (fst x) + 1)%Z && consecutive_months s'
      end
  end.

(** Every date of the index is a valid date of a year from 0 on. *)
Definition common_era (s : Series) : bool :=
  forallb (fun row => valid_date (fst row) && (0 <=? year (fst row))%Z) s.

(** The provider knows one symbol only: it answers [symbol] over ["5y"] with
    [rows] and raises for every other query; fitting succeeds only with the
    orders the service uses. *)
Definition world_single (symbol : string) (rows : DataFrame) : World :=
  mkWorld (fun ticker period =>
             if String.eqb ticker symbol && String.eqb period "5y"
             then inr rows else inl provider_error)
          (fun _ order seasonal_order =>
             match order, seasonal_order with
             | (1, 1, 1)%Z, (1, 1, 1, 12)%Z => inr (mkModel (inr (flat_results 105%float)))
             | _, _ => inl fit_error
             end)
          out_of_bounds.

(** A bar of 5 April 2262, in a world where every fit fails: the month-end
    after the bar, 2262-04-30, is past [Timestamp.max]. *)
Definition world_past_max : World :=
  mkWorld (fun _ _ => inr [ mkRow (mkTimestamp 2262 4 5) 1%float ])
          (fun _ _ _ => inr (mkModel (inl fit_error)))
          out_of_bounds.

(** A model that returns three values whatever the number of steps asked. *)
Definition world_short_forecast : World :=
  mkWorld (fun _ _ => inr january_rows)
          (fun _ _ _ =>
             inr (mkModel (inr (mkResults (fun _ => inr (repeat 105%float 3))))))
          out_of_bounds.

(** Month-end closes of January, February and March 2024. *)
Definition quarter_sample : Series :=
  [ (mkTimestamp 2024 1 31, 105%float);
    (mkTimestamp 2024 2 29, 107%float);
    (mkTimestamp 2024 3 31, 110%float) ].

(** Daily bars out of order, over two months. *)
Definition shuffled_sample : Series :=
  [ (mkTimestamp 2024 2 5, 108%float);
    (mkTimestamp 2024 1 30, 104%float);
    (mkTimestamp 2024 2 1, 106%float);
    (mkTimestamp 2024 1 2, 100%float) ].

(** [v] is what [last()] gives for the values [vs]: the last of them that is
    a number, NaN when none is. *)
Definition last_number (vs : list float) (v : float) : Prop :=
  (exists before after,
      vs = (before ++ v :: after)%list
      /\ is_nan v = false /\ forallb is_nan after = true)
  \/ (forallb is_nan vs = true /\ v = nan).

(** The resampler as the specification words it, for a series in ascending
    order: the call returns, and for each month it keeps the close of the
    chronologically last row of that month. *)
Definition resample_contract_as_written (s : Series) : Prop :=
  exists monthly,
    resample_monthly s = Some monthly
    /\ forall row, In row s ->
         In (month_end (month_index (fst row)),
             snd (last (filter (in_month (month_index (fst row))) s) row))
            monthly.

(** One bar on 5 April 2262. *)
Definition past_max_sample : Series := [ (mkTimestamp 2262 4 5, 1%float) ].

(** One bar on 25 September 1677. *)
Definition before_min_sample : Series := [ (mkTimestamp 1677 9 25, 1%float) ].

(* ================================================================== *)
(** ** Properties of [fetch_stock_data] *)
(* ================================================================== *)

Lemma fetch_stock_data_raised w ticker period e log :
  history w ticker period = inl e ->
  fetch_stock_data w ticker period log
  = (Return None, (log ++ [fetch_error_record ticker e])%list).
Proof.
  intros H. unfold fetch_stock_data, try_except, bind, call. rewrite H. reflexivity.
Qed.

Lemma fetch_stock_data_no_rows w ticker period log :
  history w ticker period = inr [] ->
  fetch_stock_data w ticker period log = (Return None, log).
Proof.
  intros H. unfold fetch_stock_data, try_except, bind, call. rewrite H. reflexivity.
Qed.

Lemma fetch_stock_data_rows w ticker period rows log :
  history w ticker period = inr rows -> rows <> [] ->
  fetch_stock_data w ticker period log = (Return (Some (Close_column rows)), log).
Proof.
  intros H Hne. unfold fetch_stock_data, try_except, bind, call. rewrite H.
  destruct rows as [|r rows]; [congruence | reflexivity].
Qed.

(** The result of [fetch_stock_data] is never an empty series. *)
Lemma fetch_stock_data_nonempty w ticker period log s log' :
  fetch_stock_data w ticker period log = (Return (Some s), log') -> s <> [].
Proof.
  unfold fetch_stock_data, try_except, bind, call.
  destruct (history w ticker period) as [e|[|r rows]]; simpl; intros H;
    inversion H; subst; discriminate.
Qed.

(** Every run of [fetch_stock_data], by what the provider answered. *)
Lemma fetch_stock_data_run (w : World) (ticker period : string)
    (log : list LogRecord) :
  fetch_stock_data w ticker period log =
  match history w ticker period with
  | inl e => (Return None, (log ++ [fetch_error_record ticker e])%list)
  | inr [] => (Return None, log)
  | inr (row :: rows) => (Return (Some (Close_column (row :: rows))), log)
  end.
Proof.
  destruct (history w ticker period) as [e|[|row rows]] eqn:H.
  - now apply fetch_stock_data_raised.
  - now apply fetch_stock_data_no_rows.
  - apply fetch_stock_data_rows; [assumption | discriminate].
Qed.

(* ================================================================== *)
(** ** Properties of the current-value endpoint *)
(* ================================================================== *)

Lemma last_map_nonempty {A B : Type} (f : A -> B) (l : list A) (d : A) (d' : B) :
  l <> [] -> last (map f l) d' = f (last l d).
Proof.
  induction l as [|x l IH]; intros Hne; [congruence|].
  destruct l as [|y l]; [reflexivity|].
  change (last (map f (y :: l)) d' = f (last (y :: l) d)).
  apply IH. discriminate.
Qed.

Lemma last_nonempty_default {A : Type} (l : list A) (d d' : A) :
  l <> [] -> last l d = last l d'.
Proof.
  intros Hne. rewrite <- (map_id l) at 1.
  now rewrite (last_map_nonempty (fun x => x) l d' d).
Qed.

Lemma iloc_last_Close_column rows log :
  rows <> [] ->
  iloc_last (Close_column rows) log = (Return (last (map Close rows) nan), log).
Proof.
  intros Hne. destruct rows as [|r rows]; [congruence|].
  assert (Hlast : snd (last (Close_column (r :: rows)) (Date r, Close r))
                  = last (map Close (r :: rows)) nan).
  { unfold Close_column.
    rewrite (last_map_nonempty _ (r :: rows) r) by discriminate.
    rewrite (last_map_nonempty Close (r :: rows) r) by discriminate.
    reflexivity. }
  unfold iloc_last, ret. cbn [Close_column map] in *. now rewrite Hlast.
Qed.

(** Every run of [get_current_value], by what the provider answered. *)
Lemma get_current_value_cases w ticker log :
  get_current_value w ticker log =
  match history w (ticker ++ ".KA") "5y" with
  | inl e =>
      (Return (invalid_ticker ticker),
       (log ++ [current_value_info ticker] ++ [fetch_error_record (ticker ++ ".KA") e]
            ++ [current_value_error ticker no_iloc])%list)
  | inr [] =>
      (Return (invalid_ticker ticker),
       (log ++ [current_value_info ticker] ++ [current_value_error ticker no_iloc])%list)
  | inr (row :: rows) =>
      (Return (mkResponse
                 (JObj [("currentPrice", JNum (last (map Close (row :: rows)) nan))]) 200),
       (log ++ [current_value_info ticker])%list)
  end.
Proof.
  unfold get_current_value, get_current_value_try, logger_info, try_except, bind.
  unfold default_period. rewrite fetch_stock_data_run.
  destruct (history w (ticker ++ ".KA") "5y") as [e|[|row rows]].
  - cbn. unfold current_value_info, current_value_error.
    rewrite <- !app_assoc. reflexivity.
  - cbn. rewrite <- !app_assoc. reflexivity.
  - cbn [iloc_last_of]. rewrite iloc_last_Close_column by discriminate.
    reflexivity.
Qed.

(* ================================================================== *)
(** ** Properties of the forecast endpoint *)
(* ================================================================== *)

Lemma fit_sarimax_run w data log :
  fit_sarimax w data log =
  match fitted w data with
  | inl e => (Return None, (log ++ [fit_error_record e])%list)
  | inr results => (Return (Some results), log)
  end.
Proof.
  unfold fit_sarimax, fitted, try_except, bind, call.
  destruct (SARIMAX w data _ _) as [e|model]; [reflexivity|].
  cbn. destruct (fit_method model); reflexivity.
Qed.

Lemma forecast_run model steps log :
  forecast model steps log =
  match forecast_method model steps with
  | inl e => (Return None, (log ++ [generate_error_record e])%list)
  | inr values => (Return (Some values), log)
  end.
Proof.
  unfold forecast, try_except, bind, call.
  destruct (forecast_method model steps); reflexivity.
Qed.

Lemma comprehension_Date pairs log :
  comprehension (fun d => getitem d "Date") (map forecast_entry pairs) log
  = (Return (map (fun p => JStr (strftime (fst p))) pairs), log).
Proof.
  revert log. induction pairs as [|p pairs IH]; intros log; [reflexivity|].
  cbn [map comprehension]. unfold bind at 1. cbn.
  unfold bind at 1. rewrite IH. reflexivity.
Qed.

Lemma comprehension_Forecast pairs log :
  comprehension (fun d => getitem d "Forecast") (map forecast_entry pairs) log
  = (Return (map (fun p => JNum (snd p)) pairs), log).
Proof.
  revert log. induction pairs as [|p pairs IH]; intros log; [reflexivity|].
  cbn [map comprehension]. unfold bind at 1. cbn.
  unfold bind at 1. rewrite IH. reflexivity.
Qed.

(** Every run of [get_forecast], by what the provider and the statistics
    library answered. *)
Lemma get_forecast_cases w ticker log :
  get_forecast w ticker log =
  match history w (ticker ++ ".KA") "5y" with
  | inl e =>
      (Return (invalid_ticker ticker),
       (log ++ [forecast_info ticker] ++ [fetch_error_record (ticker ++ ".KA") e])%list)
  | inr [] => (Return (invalid_ticker ticker), (log ++ [forecast_info ticker])%list)
  | inr (row :: rows) =>
      match resample_monthly (Close_column (row :: rows)) with
      | None =>
          (Return (server_error (str (OutOfBoundsDatetime w))),
           (log ++ [forecast_info ticker]
                ++ [forecast_error_record ticker (OutOfBoundsDatetime w)])%list)
      | Some monthly_data =>
          match fitted w monthly_data with
          | inl e =>
              (Return (server_error "Failed to fit forecasting model"),
               (log ++ [forecast_info ticker] ++ [fit_error_record e])%list)
          | inr results =>
              match forecast_method results 6 with
              | inl e =>
                  (Return (server_error "Failed to generate forecast"),
                   (log ++ [forecast_info ticker] ++ [generate_error_record e])%list)
              | inr values =>
                  match monthly_data with
                  | [] =>
                      (Return (server_error (str empty_index)),
                       (log ++ [forecast_info ticker]
                            ++ [forecast_error_record ticker empty_index])%list)
                  | first :: _ =>
                      match date_range_M (fst (last monthly_data first)) 7 with
                      | None =>
                          (Return (server_error (str (OutOfBoundsDatetime w))),
                           (log ++ [forecast_info ticker]
                                ++ [forecast_error_record ticker
                                      (OutOfBoundsDatetime w)])%list)
                      | Some dates =>
                          (Return (mkResponse
                                     (forecast_payload
                                        (last (map Close (row :: rows)) nan)
                                        monthly_data (tl dates) values)
                                     200),
                           (log ++ [forecast_info ticker])%list)
                      end
                  end
              end
          end
      end
  end.
Proof.
  unfold get_forecast, get_forecast_try, logger_info.
  unfold try_except at 1. unfold bind at 1. unfold bind at 1.
  unfold default_period. rewrite fetch_stock_data_run.
  destruct (history w (ticker ++ ".KA") "5y") as [e|[|row rows]].
  - cbn. rewrite <- !app_assoc. reflexivity.
  - reflexivity.
  - unfold bind at 1.
    rewrite iloc_last_Close_column by discriminate.
    unfold bind at 1.
    destruct (resample_monthly (Close_column (row :: rows))) as [monthly_data|].
    2:{ cbn. rewrite <- !app_assoc. reflexivity. }
    unfold or_out_of_bounds, ret at 1.
    unfold bind at 1. rewrite fit_sarimax_run.
    destruct (fitted w _) as [e|results].
    { cbn. rewrite <- !app_assoc. reflexivity. }
    unfold bind at 1. rewrite forecast_run.
    destruct (forecast_method results 6) as [e|values].
    { cbn. rewrite <- !app_assoc. reflexivity. }
    unfold bind at 1.
    destruct monthly_data as [|first monthly].
    { cbn. rewrite <- !app_assoc. reflexivity. }
    unfold index_last, ret at 1.
    unfold bind at 1. unfold date_range.
    change (6 + 1)%nat with 7%nat.
    destruct (date_range_M (fst (last (first :: monthly) first)) 7) as [dates|].
    2:{ cbn. rewrite <- !app_assoc. reflexivity. }
    unfold ret at 1. unfold bind at 1. rewrite comprehension_Date.
    unfold bind at 1. rewrite comprehension_Forecast.
    reflexivity.
Qed.

(* ================================================================== *)
(** ** The calendar *)
(* ================================================================== *)

(** Linear arithmetic with quotients and remainders by constants. *)
Ltac div_mod_lia := Z.div_mod_to_equations; lia.

Lemma month_index_month_end m : month_index (month_end m) = m.
Proof.
  unfold month_index, month_end. cbn [year month].
  div_mod_lia.
Qed.

Lemma is_month_end_month_end m : is_month_end (month_end m) = true.
Proof. unfold is_month_end, month_end. cbn [year month day]. apply Z.eqb_refl. Qed.

Lemma month_end_lt m1 m2 : (m1 < m2)%Z -> ts_lt (month_end m1) (month_end m2).
Proof.
  intros Hlt. unfold ts_lt, ts_ltb, ts_compare, month_end. cbn [year month day].
  destruct (Z.compare_spec (m1 / 12) (m2 / 12)) as [Hy|Hy|Hy];
    [| reflexivity | div_mod_lia].
  destruct (Z.compare_spec (m1 mod 12 + 1) (m2 mod 12 + 1)) as [Hm|Hm|Hm];
    [div_mod_lia | reflexivity | div_mod_lia].
Qed.

Lemma month_end_le m1 m2 : (m1 <= m2)%Z -> ts_leb (month_end m1) (month_end m2) = true.
Proof.
  intros Hle. destruct (Z.eq_dec m1 m2) as [->|Hne].
  - unfold ts_leb, ts_compare. now rewrite !Z.compare_refl.
  - assert (Hlt : ts_lt (month_end m1) (month_end m2)) by (apply month_end_lt; lia).
    unfold ts_lt, ts_ltb in Hlt. unfold ts_leb.
    destruct (ts_compare (month_end m1) (month_end m2)); congruence.
Qed.

Lemma rollforward_month_end m : rollforward (month_end m) = month_end m.
Proof. unfold rollforward. now rewrite is_month_end_month_end. Qed.

Lemma next_month_end_month_end m : next_month_end (month_end m) = month_end (m + 1).
Proof. unfold next_month_end. now rewrite month_index_month_end. Qed.

(** A valid date that is a month-end is the end of its own month. *)
Lemma month_end_of_month_index t :
  valid_date t = true -> is_month_end t = true -> month_end (month_index t) = t.
Proof.
  unfold valid_date, is_month_end, month_end, month_index.
  destruct t as [y m d]. cbn [year month day].
  rewrite !andb_true_iff, !Z.leb_le, Z.eqb_eq. intros [[[H1 H12] _] _] Hd.
  assert (Hy : ((y * 12 + (m - 1)) / 12 = y)%Z) by div_mod_lia.
  assert (Hm : ((y * 12 + (m - 1)) mod 12 + 1 = m)%Z) by div_mod_lia.
  rewrite Hy, Hm. now rewrite Hd.
Qed.

(** Chronological order respects the month count on valid dates. *)
Lemma ts_leb_month_index a b :
  valid_date a = true -> valid_date b = true ->
  ts_leb a b = true -> (month_index a <= month_index b)%Z.
Proof.
  unfold valid_date, ts_leb, ts_compare, month_index.
  destruct a as [ya ma da], b as [yb mb db]. cbn [year month day].
  rewrite !andb_true_iff, !Z.leb_le. intros [[[Ha1 Ha12] _] _] [[[Hb1 Hb12] _] _].
  destruct (Z.compare_spec ya yb) as [Hy|Hy|Hy]; [| lia | discriminate].
  destruct (Z.compare_spec ma mb) as [Hm|Hm|Hm]; [lia | lia | discriminate].
Qed.

(* ================================================================== *)
(** ** Month ranges *)
(* ================================================================== *)

Lemma month_range_length lo n : List.length (month_range lo n) = n.
Proof. revert lo. induction n as [|n IH]; intros lo; cbn; [reflexivity | now rewrite IH]. Qed.

Lemma month_range_In m lo n :
  In m (month_range lo n) <-> (lo <= m < lo + Z.of_nat n)%Z.
Proof.
  revert lo. induction n as [|n IH]; intros lo; cbn [month_range In].
  - lia.
  - rewrite IH. lia.
Qed.

Lemma month_range_last lo n d :
  last (month_range lo (S n)) d = (lo + Z.of_nat n)%Z.
Proof.
  revert lo. induction n as [|n IH]; intros lo.
  - cbn. lia.
  - change (month_range lo (S (S n))) with (lo :: month_range (lo + 1) (S n)).
    change (last (lo :: month_range (lo + 1) (S n)) d)
      with (last (month_range (lo + 1) (S n)) d).
    rewrite IH. lia.
Qed.

Lemma filter_month_range m lo n :
  filter (fun k => k =? m)%Z (month_range lo n)
  = if ((lo <=? m) && (m <? lo + Z.of_nat n))%Z then [m] else [].
Proof.
  revert lo. induction n as [|n IH]; intros lo.
  - cbn. destruct (lo <=? m)%Z eqn:H1, (m <? lo + 0)%Z eqn:H2; try reflexivity.
    apply Z.leb_le in H1. apply Z.ltb_lt in H2. lia.
  - cbn [month_range filter]. rewrite IH.
    destruct (Z.eqb_spec lo m) as [->|Hne].
    + replace ((m + 1 <=? m)%Z) with false by (symmetry; apply Z.leb_gt; lia).
      replace ((m <=? m)%Z) with true by (symmetry; apply Z.leb_le; lia).
      replace ((m <? m + Z.of_nat (S n))%Z) with true by (symmetry; apply Z.ltb_lt; lia).
      reflexivity.
    + replace ((lo + 1 + Z.of_nat n)%Z) with ((lo + Z.of_nat (S n))%Z) by lia.
      destruct (Z.leb_spec (lo + 1) m), (Z.leb_spec lo m); try lia; reflexivity.
Qed.

Lemma generate_range_month_end m n :
  generate_range (month_end m) n = map month_end (month_range m n).
Proof.
  revert m. induction n as [|n IH]; intros m; [reflexivity|].
  cbn [generate_range month_range map].
  now rewrite next_month_end_month_end, IH.
Qed.

(** A successful [date_range] from a month-end: that month-end and the
    [periods - 1] month-ends after it. *)
Lemma date_range_M_month_end m periods dates :
  date_range_M (month_end m) periods = Some dates ->
  dates = map month_end (month_range m periods).
Proof.
  unfold date_range_M. rewrite rollforward_month_end, generate_range_month_end.
  destruct (forallb _ _); congruence.
Qed.

Lemma StronglySorted_month_ends lo n :
  StronglySorted ts_lt (map month_end (month_range lo n)).
Proof.
  revert lo. induction n as [|n IH]; intros lo; cbn [month_range map]; constructor.
  - apply IH.
  - apply Forall_forall. intros t Ht. apply in_map_iff in Ht as (m & <- & Hm).
    apply month_range_In in Hm. apply month_end_lt. lia.
Qed.

(* ================================================================== *)
(** ** Resampling *)
(* ================================================================== *)

Lemma last_per_month_bins s :
  last_per_month s = map (bin_row (sort_index s)) (month_bins (sort_index s)).
Proof. reflexivity. Qed.

Lemma sort_index_sorted s : is_monotonic_increasing s = true -> sort_index s = s.
Proof.
  induction s as [|x s IH]; [reflexivity|].
  destruct s as [|y s].
  - reflexivity.
  - intros H. change (is_monotonic_increasing (x :: y :: s))
      with (ts_leb (fst x) (fst y) && is_monotonic_increasing (y :: s)) in H.
    apply andb_true_iff in H as [Hxy Hs].
    change (sort_index (x :: y :: s)) with (insert_row x (sort_index (y :: s))).
    rewrite (IH Hs). cbn [insert_row]. now rewrite Hxy.
Qed.

Lemma month_bins_range sorted : exists lo n, month_bins sorted = month_range lo n.
Proof.
  destruct sorted as [|first rest].
  - exists 0%Z, 0%nat. reflexivity.
  - eexists _, _. reflexivity.
Qed.

Section OneRowPerMonth.

(** A series with one row per month of a range, labelled by month-ends:
    the shape of the rows of [last_per_month]. *)
Variable value : Z -> float.

Lemma monthly_rows_monotonic lo n :
  is_monotonic_increasing (map (month_row value) (month_range lo n)) = true.
Proof.
  revert lo. induction n as [|n IH]; intros lo; [reflexivity|].
  cbn [month_range map]. specialize (IH (lo + 1)%Z).
  destruct n as [|n]; [reflexivity|].
  cbn [month_range map] in *. cbn [is_monotonic_increasing].
  apply andb_true_iff. split; [| exact IH].
  unfold month_row. cbn [fst]. apply month_end_le. lia.
Qed.

Lemma monthly_rows_bins lo n :
  month_bins (map (month_row value) (month_range lo n)) = month_range lo n.
Proof.
  destruct n as [|n]; [reflexivity|].
  unfold month_bins. cbn [month_range map].
  change (month_row value lo :: map (month_row value) (month_range (lo + 1) n))
    with (map (month_row value) (month_range lo (S n))).
  rewrite (last_map_nonempty (month_row value) (month_range lo (S n)) lo).
  2:{ cbn [month_range]. discriminate. }
  rewrite month_range_last. unfold month_row. cbn [fst].
  rewrite !month_index_month_end.
  replace (Z.to_nat (lo + Z.of_nat n - lo + 1)) with (S n) by lia.
  reflexivity.
Qed.

Lemma monthly_rows_filter m lo n :
  In m (month_range lo n) ->
  filter (in_month m) (map (month_row value) (month_range lo n)) = [month_row value m].
Proof.
  intros Hin.
  assert (Hf : forall l, filter (in_month m) (map (month_row value) l)
                         = map (month_row value) (filter (fun k => k =? m)%Z l)).
  { induction l as [|k l IH]; [reflexivity|].
    cbn [map filter]. unfold in_month at 1. unfold month_row at 1. cbn [fst].
    rewrite month_index_month_end. destruct (k =? m)%Z; cbn [map]; now rewrite IH. }
  rewrite Hf, filter_month_range.
  apply month_range_In in Hin.
  replace (lo <=? m)%Z with true by (symmetry; apply Z.leb_le; lia).
  replace (m <? lo + Z.of_nat n)%Z with true by (symmetry; apply Z.ltb_lt; lia).
  reflexivity.
Qed.

End OneRowPerMonth.

(** [last()] of a group with the single value [last()] gave is that value. *)
Lemma last_valid_idempotent vs : last_valid [last_valid vs] = last_valid vs.
Proof.
  unfold last_valid at 2 3.
  destruct (find (fun v => negb (is_nan v)) (rev vs)) as [v|] eqn:Hfind.
  - apply find_some in Hfind as [_ Hv].
    unfold last_valid. cbn. now rewrite Hv.
  - reflexivity.
Qed.

(** Building the rows again from the rows changes nothing, whatever the
    series. *)
Lemma last_per_month_idempotent s :
  last_per_month (last_per_month s) = last_per_month s.
Proof.
  rewrite (last_per_month_bins s).
  destruct (month_bins_range (sort_index s)) as (lo & n & Hbins). rewrite Hbins.
  set (value := fun m => last_valid (tolist (filter (in_month m) (sort_index s)))).
  change (bin_row (sort_index s)) with (month_row value).
  rewrite last_per_month_bins.
  rewrite (sort_index_sorted _ (monthly_rows_monotonic value lo n)).
  rewrite monthly_rows_bins.
  apply map_ext_in. intros m Hm. unfold bin_row.
  rewrite (monthly_rows_filter value m lo n Hm).
  unfold month_row. cbn [tolist map snd]. unfold value.
  now rewrite last_valid_idempotent.
Qed.

Lemma sorted_month_bounds s first :
  valid_index (first :: s) = true ->
  is_monotonic_increasing (first :: s) = true ->
  forall row, In row (first :: s) ->
    (month_index (fst first) <= month_index (fst row)
     <= month_index (fst (last (first :: s) first)))%Z.
Proof.
  revert first. induction s as [|y s IH]; intros first Hv Hs row Hin.
  - destruct Hin as [<-|[]]. cbn. lia.
  - change (is_monotonic_increasing (first :: y :: s))
      with (ts_leb (fst first) (fst y) && is_monotonic_increasing (y :: s)) in Hs.
    apply andb_true_iff in Hs as [Hfy Hs].
    cbn [valid_index forallb] in Hv. apply andb_true_iff in Hv as [Hvf Hv].
    assert (Hvy : valid_date (fst y) = true).
    { cbn [forallb] in Hv. now apply andb_true_iff in Hv as [Hvy _]. }
    pose proof (ts_leb_month_index _ _ Hvf Hvy Hfy) as Hle.
    change (last (first :: y :: s) first) with (last (y :: s) first).
    assert (Hlast : last (y :: s) first = last (y :: s) y)
      by (apply last_nonempty_default; discriminate).
    rewrite Hlast.
    destruct Hin as [<-|Hin].
    + specialize (IH y Hv Hs y (or_introl eq_refl)). lia.
    + specialize (IH y Hv Hs row Hin). lia.
Qed.

Lemma month_bins_In s row :
  valid_index s = true -> is_monotonic_increasing s = true ->
  In row s -> In (month_index (fst row)) (month_bins s).
Proof.
  intros Hv Hs Hin. destruct s as [|first s]; [contradiction|].
  pose proof (sorted_month_bounds s first Hv Hs row Hin) as Hb.
  unfold month_bins. apply month_range_In. lia.
Qed.

Lemma NoDup_month_range lo n : NoDup (month_range lo n).
Proof.
  revert lo. induction n as [|n IH]; intros lo; cbn [month_range]; constructor.
  - rewrite month_range_In. lia.
  - apply IH.
Qed.

Lemma NoDup_month_ends lo n : NoDup (map month_end (month_range lo n)).
Proof.
  apply Injective_map_NoDup; [| apply NoDup_month_range].
  intros a b Hab. rewrite <- (month_index_month_end a), <- (month_index_month_end b).
  now rewrite Hab.
Qed.

(** [last()] of a group whose last value is a number is that value. *)
Lemma last_valid_last vs d :
  vs <> [] -> is_nan (last vs d) = false -> last_valid vs = last vs d.
Proof.
  intros Hne Hnum. destruct (exists_last Hne) as (vs' & v & ->).
  rewrite last_last in *. unfold last_valid. rewrite rev_unit. cbn [find].
  now rewrite Hnum.
Qed.

Lemma no_missing_filter s f : no_missing s = true -> no_missing (filter f s) = true.
Proof.
  unfold no_missing. rewrite !forallb_forall. intros H row Hin.
  apply filter_In in Hin as [Hin _]. now apply H.
Qed.

(** In a series of numbers, the bin of a month with rows holds the close of
    the last row of that month. *)
Lemma bin_row_last s m d :
  no_missing s = true -> filter (in_month m) s <> [] ->
  bin_row s m = (month_end m, snd (last (filter (in_month m) s) d)).
Proof.
  intros Hnum Hne. unfold bin_row. f_equal.
  set (group := filter (in_month m) s) in *.
  assert (Hg : no_missing group = true) by now apply no_missing_filter.
  unfold tolist. rewrite (last_valid_last (map snd group) (snd d)).
  - apply last_map_nonempty. exact Hne.
  - destruct group; [congruence | discriminate].
  - rewrite (last_map_nonempty snd group d) by exact Hne.
    unfold no_missing in Hg. rewrite forallb_forall in Hg.
    assert (Hin : In (last group d) group).
    { destruct (exists_last Hne) as (g' & x & ->). rewrite last_last.
      apply in_or_app. right. now left. }
    specialize (Hg _ Hin). now apply negb_true_iff in Hg.
Qed.

(* ================================================================== *)
(** ** Formatted dates *)
(* ================================================================== *)

Lemma digit_inj a b :
  (0 <= a < 10)%Z -> (0 <= b < 10)%Z -> digit a = digit b -> a = b.
Proof.
  intros Ha Hb H. unfold digit in H.
  apply (f_equal nat_of_ascii) in H.
  rewrite !nat_ascii_embedding in H by lia. lia.
Qed.

Lemma pad2_inj a b :
  (0 <= a < 100)%Z -> (0 <= b < 100)%Z -> pad2 a = pad2 b -> a = b.
Proof.
  intros Ha Hb H. unfold pad2 in H. injection H as Hhi Hlo.
  apply digit_inj in Hhi; [| div_mod_lia | div_mod_lia].
  apply digit_inj in Hlo; [| div_mod_lia | div_mod_lia].
  div_mod_lia.
Qed.

Lemma days_in_month_bound y m : (28 <= days_in_month y m <= 31)%Z.
Proof.
  unfold days_in_month.
  destruct m as [|p|p]; try lia.
  do 4 (try (destruct p as [p|p|]; try lia)); destruct (is_leap_year y); lia.
Qed.

(** Dates of the years 0..9999 are told apart by their [DD-MM-YYYY] text. *)
Lemma strftime_inj a b :
  valid_date a = true -> valid_date b = true ->
  (0 <= year a <= 9999)%Z -> (0 <= year b <= 9999)%Z ->
  strftime a = strftime b -> a = b.
Proof.
  unfold valid_date. destruct a as [ya ma da], b as [yb mb db]. cbn [year month day].
  rewrite !andb_true_iff, !Z.leb_le.
  intros [[[Hma1 Hma2] Hda1] Hda2] [[[Hmb1 Hmb2] Hdb1] Hdb2] Hya Hyb H.
  pose proof (days_in_month_bound ya ma). pose proof (days_in_month_bound yb mb).
  unfold strftime, pad2 in H. cbn [year month day append] in H.
  injection H as Hd1 Hd0 Hm1 Hm0 Hc1 Hc0 Hy1 Hy0.
  apply digit_inj in Hd1, Hd0, Hm1, Hm0, Hc1, Hc0, Hy1, Hy0; try div_mod_lia.
  assert (da = db) by div_mod_lia.
  assert (ma = mb) by div_mod_lia.
  assert (ya = yb) by div_mod_lia.
  congruence.
Qed.

(* ================================================================== *)
(** ** Month-ends in sequence *)
(* ================================================================== *)

Lemma follows_month_ends k n :
  follows_month_by_month (month_end k) (map month_end (month_range (k + 1) n)).
Proof.
  revert k. induction n as [|n IH]; intros k; cbn [month_range map follows_month_by_month].
  - exact I.
  - repeat split.
    + apply is_month_end_month_end.
    + symmetry. apply next_month_end_month_end.
    + apply month_end_lt. lia.
    + apply IH.
Qed.

Lemma ts_compare_antisym a b : ts_compare b a = CompOpp (ts_compare a b).
Proof.
  unfold ts_compare.
  rewrite (Z.compare_antisym (year a) (year b)),
          (Z.compare_antisym (month a) (month b)),
          (Z.compare_antisym (day a) (day b)).
  destruct (year a ?= year b)%Z, (month a ?= month b)%Z, (day a ?= day b)%Z; reflexivity.
Qed.

(** No month-end lies strictly between a month-end and the next one. *)
Lemma next_month_end_least k t :
  valid_date t = true -> is_month_end t = true ->
  ts_lt (month_end k) t -> ts_leb (next_month_end (month_end k)) t = true.
Proof.
  intros Hv He Hlt. rewrite next_month_end_month_end.
  rewrite <- (month_end_of_month_index t Hv He) in *.
  apply month_end_le.
  destruct (Z_lt_le_dec k (month_index t)) as [|Hle]; [lia|].
  apply month_end_le in Hle. unfold ts_lt, ts_ltb in Hlt. unfold ts_leb in Hle.
  rewrite ts_compare_antisym in Hle.
  destruct (ts_compare (month_end k) (month_end (month_index t))); discriminate.
Qed.

Lemma generate_range_length t n : List.length (generate_range t n) = n.
Proof. revert t. induction n as [|n IH]; intros t; cbn; [reflexivity | now rewrite IH]. Qed.

Lemma date_range_M_length start periods dates :
  date_range_M start periods = Some dates -> List.length dates = periods.
Proof.
  unfold date_range_M. destruct (forallb _ _); [| discriminate].
  intros H. injection H as <-. apply generate_range_length.
Qed.

Lemma combine_fst_month_ends lo n (vs : list float) :
  map fst (combine (map month_end (month_range lo n)) vs)
  = map month_end (month_range lo (Nat.min n (List.length vs))).
Proof.
  revert lo vs. induction n as [|n IH]; intros lo vs; [reflexivity|].
  destruct vs as [|v vs]; [reflexivity|].
  cbn [month_range map combine List.length Nat.min fst]. f_equal. apply IH.
Qed.

(** The label of the last row of [last_per_month] is a month-end. *)
Lemma last_per_month_last_label s first monthly :
  last_per_month s = first :: monthly ->
  exists k, fst (last (first :: monthly) first) = month_end k.
Proof.
  rewrite last_per_month_bins.
  destruct (month_bins_range (sort_index s)) as (lo & n & ->).
  destruct n as [|n]; [discriminate|]. intros H.
  exists (lo + Z.of_nat n)%Z. rewrite <- H.
  rewrite (last_map_nonempty _ (month_range lo (S n)) lo) by (cbn; discriminate).
  now rewrite month_range_last.
Qed.

(** A resampling that returns gives the rows of [last_per_month], and the
    bin edges were timestamps. *)
Lemma resample_monthly_some s monthly :
  resample_monthly s = Some monthly ->
  last_per_month s = monthly /\ edges_representable (sort_index s) = true.
Proof.
  unfold resample_monthly, resample_M_last.
  destruct (edges_representable (sort_index s)); [| discriminate].
  intros H. injection H as <-. split; reflexivity.
Qed.

Lemma resample_monthly_representable s :
  edges_representable (sort_index s) = true ->
  resample_monthly s = Some (last_per_month s).
Proof. unfold resample_monthly, resample_M_last. now intros ->. Qed.

Lemma resample_monthly_out_of_bounds s :
  edges_representable (sort_index s) = false -> resample_monthly s = None.
Proof. unfold resample_monthly, resample_M_last. now intros ->. Qed.

(** What a 200 response of [get_forecast] is made of. *)
Lemma get_forecast_200 w ticker log r log' :
  get_forecast w ticker log = (Return r, log') -> status r = 200%nat ->
  exists row rows first monthly results values dates,
    history w (ticker ++ ".KA") "5y" = inr (row :: rows) /\
    resample_monthly (Close_column (row :: rows)) = Some (first :: monthly) /\
    fitted w (first :: monthly) = inr results /\
    forecast_method results 6 = inr values /\
    date_range_M (fst (last (first :: monthly) first)) 7 = Some dates /\
    r = mkResponse (forecast_payload (last (map Close (row :: rows)) nan)
                                     (first :: monthly) (tl dates) values) 200.
Proof.
  rewrite get_forecast_cases. intros Hrun Hstatus.
  destruct (history w (ticker ++ ".KA") "5y") as [e|[|row rows]] eqn:Hh;
    try (injection Hrun as <- _; discriminate Hstatus).
  destruct (resample_monthly (Close_column (row :: rows))) as [[|first monthly]|] eqn:Hm;
    [| | injection Hrun as <- _; discriminate Hstatus].
  - destruct (fitted w []) as [e|results];
      [injection Hrun as <- _; discriminate Hstatus|].
    destruct (forecast_method results 6);
      injection Hrun as <- _; discriminate Hstatus.
  - destruct (fitted w (first :: monthly)) as [e|results] eqn:Hfit;
      [injection Hrun as <- _; discriminate Hstatus|].
    destruct (forecast_method results 6) as [e|values] eqn:Hfc;
      [injection Hrun as <- _; discriminate Hstatus|].
    destruct (date_range_M (fst (last (first :: monthly) first)) 7) as [dates|] eqn:Hd;
      [| injection Hrun as <- _; discriminate Hstatus].
    injection Hrun as <- _.
    exists row, rows, first, monthly, results, values, dates. repeat split; assumption.
Qed.

(* ================================================================== *)
(** ** The fetcher *)
(* ================================================================== *)

(** C3, as written, fails: a provider answer without rows makes
    [fetch_stock_data] return [None] through [if df.empty], which logs
    nothing. *)
Lemma fetch_silent_on_empty_frame :
  ~ fetch_contract_as_written world_empty "ABC.KA" "5y".
Proof.
  intros H. destruct (H nil) as (r & log' & Hrun & Hcase).
  simpl in Hcase. destruct Hcase as (_ & records & Hne & Hlog).
  vm_compute in Hrun. injection Hrun as _ Hnil. rewrite <- Hnil in Hlog.
  destruct records; [now apply Hne | discriminate Hlog].
Qed.

(** C3, amended: [fetch_stock_data] never raises. When the provider call
    raises, it returns [None] and appends one error record with the ticker and
    the error text; when the provider returns no rows, it returns [None] and
    logs nothing; otherwise it returns the close series and logs nothing. *)
Theorem fetch_stock_data_never_raises (w : World) (ticker period : string)
    (log : list LogRecord) :
  exists r log',
    fetch_stock_data w ticker period log = (Return r, log') /\
    match history w ticker period with
    | inl e => r = None /\ log' = (log ++ [fetch_error_record ticker e])%list
    | inr [] => r = None /\ log' = log
    | inr (row :: rows) => r = Some (Close_column (row :: rows)) /\ log' = log
    end.
Proof.
  rewrite fetch_stock_data_run.
  destruct (history w ticker period) as [e|[|row rows]];
    eexists; eexists; repeat split; reflexivity.
Qed.

(* ================================================================== *)
(** ** The endpoints *)
(* ================================================================== *)

(** C1. For every ticker for which the provider returns a non-empty daily
    series, the current-value endpoint responds 200 with a JSON body whose
    [currentPrice] is the last element of that series' closes. *)
Theorem current_value_returns_last_close (w : World) (ticker : string)
    (rows : DataFrame) (log : list LogRecord) :
  history w (ticker ++ ".KA") "5y" = inr rows -> rows <> [] ->
  exists log',
    get_current_value w ticker log
    = (Return (mkResponse (JObj [("currentPrice", JNum (last (map Close rows) nan))]) 200),
       log').
Proof.
  intros Hh Hne. rewrite get_current_value_cases, Hh.
  destruct rows as [|row rows]; [congruence|]. eexists. reflexivity.
Qed.

Lemma current_value_returns_last_close_witness :
  exists log',
    get_current_value world_ok "ABC" []
    = (Return (mkResponse (JObj [("currentPrice", JNum 105%float)]) 200), log').
Proof.
  apply (current_value_returns_last_close world_ok "ABC" january_rows []).
  - reflexivity.
  - discriminate.
Defined.

(** C2. For every ticker for which the provider returns no rows or raises,
    both endpoints respond 400 with the body
    [{"error": "Invalid ticker symbol: <ticker>"}]. *)
Theorem absent_data_gives_400 (w : World) (ticker : string) (log : list LogRecord) :
  history w (ticker ++ ".KA") "5y" = inr []
  \/ (exists e, history w (ticker ++ ".KA") "5y" = inl e) ->
  let invalid :=
    mkResponse (JObj [("error", JStr ("Invalid ticker symbol: " ++ ticker))]) 400 in
  (exists log', get_current_value w ticker log = (Return invalid, log'))
  /\ (exists log', get_forecast w ticker log = (Return invalid, log')).
Proof.
  intros Habsent invalid.
  rewrite get_current_value_cases, get_forecast_cases.
  destruct Habsent as [-> | [e ->]]; split; eexists; reflexivity.
Qed.

Lemma absent_data_gives_400_witness :
  let invalid := mkResponse (JObj [("error", JStr "Invalid ticker symbol: XYZ")]) 400 in
  ((exists log', get_current_value world_empty "XYZ" [] = (Return invalid, log'))
   /\ (exists log', get_forecast world_empty "XYZ" [] = (Return invalid, log')))
  /\ ((exists log', get_current_value world_down "XYZ" [] = (Return invalid, log'))
      /\ (exists log', get_forecast world_down "XYZ" [] = (Return invalid, log'))).
Proof.
  split.
  - apply (absent_data_gives_400 world_empty "XYZ" []). left. reflexivity.
  - apply (absent_data_gives_400 world_down "XYZ" []). right.
    exists provider_error. reflexivity.
Defined.

(** C10. The current-value endpoint always returns, and its response is one
    of two: 200 with the single-key body [{"currentPrice": <number>}], or 400
    with the single-key body [{"error": "Invalid ticker symbol: <ticker>"}].
    It is never 500, and a failure response does not tell what failed: any
    two responses for a ticker that are not 200 are the same response, whatever
    the provider did. *)
Theorem current_value_two_shapes (w : World) (ticker : string) (log : list LogRecord) :
  exists r log',
    get_current_value w ticker log = (Return r, log')
    /\ ((exists price, r = mkResponse (JObj [("currentPrice", JNum price)]) 200)
        \/ r = mkResponse (JObj [("error", JStr ("Invalid ticker symbol: " ++ ticker))]) 400)
    /\ status r <> 500%nat
    /\ (forall w2 log2 r2 log2',
          get_current_value w2 ticker log2 = (Return r2, log2') ->
          status r <> 200%nat -> status r2 <> 200%nat -> r2 = r).
Proof.
  assert (Hfail : forall v l x l',
             get_current_value v ticker l = (Return x, l') ->
             status x <> 200%nat -> x = invalid_ticker ticker).
  { intros v l x l'. rewrite get_current_value_cases.
    destruct (history v (ticker ++ ".KA") "5y") as [e|[|row rows]];
      intros Hrun Hs; injection Hrun as <- _; [reflexivity | reflexivity |].
    now contradiction Hs. }
  destruct (get_current_value w ticker log) as [[r|e] log'] eqn:Hrun.
  2:{ rewrite get_current_value_cases in Hrun.
      destruct (history w (ticker ++ ".KA") "5y") as [e'|[|row rows]]; discriminate. }
  exists r, log'. split; [reflexivity|].
  assert (Hshape : (exists price, r = mkResponse (JObj [("currentPrice", JNum price)]) 200)
                   \/ r = invalid_ticker ticker).
  { pose proof Hrun as Hcases. rewrite get_current_value_cases in Hcases.
    destruct (history w (ticker ++ ".KA") "5y") as [e|[|row rows]];
      injection Hcases as <- _; [right | right | left; eexists]; reflexivity. }
  split; [exact Hshape|]. split.
  - destruct Hshape as [[price ->] | ->]; discriminate.
  - intros w2 log2 r2 log2' Hrun2 Hs Hs2.
    rewrite (Hfail _ _ _ _ Hrun2 Hs2). symmetry. exact (Hfail _ _ _ _ Hrun Hs).
Qed.

Lemma current_value_two_shapes_witness :
  exists r,
    fst (get_current_value world_empty "XYZ" []) = Return r
    /\ fst (get_current_value world_down "XYZ" []) = Return r.
Proof.
  destruct (current_value_two_shapes world_empty "XYZ" [])
    as (r & log' & Hrun & _ & _ & Hsame).
  exists r. split; [now rewrite Hrun|].
  assert (Hr : status r = 400%nat).
  { vm_compute in Hrun. now injection Hrun as <- _. }
  rewrite <- (Hsame world_down [] (invalid_ticker "XYZ") _ eq_refl).
  - reflexivity.
  - rewrite Hr. discriminate.
  - discriminate.
Defined.

(** C9. On the forecast endpoint, after a successful fetch: once the monthly
    resampling has returned, a failed fit gives 500 with
    [{"error": "Failed to fit forecasting model"}], and a failed forecast after
    a successful fit gives 500 with [{"error": "Failed to generate forecast"}];
    an exception that escapes the [try] block gives 500 with the exception's
    text as the error, as the out-of-bounds error of the resampling does,
    before any model is built. *)
Theorem forecast_failures_give_500 (w : World) (ticker : string) (row : Row)
    (rows : DataFrame) (log : list LogRecord) :
  history w (ticker ++ ".KA") "5y" = inr (row :: rows) ->
  (forall monthly_data e,
     resample_monthly (Close_column (row :: rows)) = Some monthly_data ->
     fitted w monthly_data = inl e ->
     exists log',
       get_forecast w ticker log
       = (Return (mkResponse (JObj [("error", JStr "Failed to fit forecasting model")]) 500),
          log'))
  /\ (forall monthly_data results e,
        resample_monthly (Close_column (row :: rows)) = Some monthly_data ->
        fitted w monthly_data = inr results ->
        forecast_method results 6 = inl e ->
        exists log',
          get_forecast w ticker log
          = (Return (mkResponse (JObj [("error", JStr "Failed to generate forecast")]) 500),
             log'))
  /\ (forall e log1,
        get_forecast_try w ticker (log ++ [forecast_info ticker])%list = (Raise e, log1) ->
        exists log',
          get_forecast w ticker log
          = (Return (mkResponse (JObj [("error", JStr (str e))]) 500), log'))
  /\ (resample_monthly (Close_column (row :: rows)) = None ->
      get_forecast_try w ticker (log ++ [forecast_info ticker])%list
      = (Raise (OutOfBoundsDatetime w), (log ++ [forecast_info ticker])%list)).
Proof.
  intros Hh. repeat split.
  - intros monthly_data e Hm Hfit. rewrite get_forecast_cases, Hh, Hm, Hfit.
    eexists. reflexivity.
  - intros monthly_data results e Hm Hfit Hfc.
    rewrite get_forecast_cases, Hh, Hm, Hfit, Hfc. eexists. reflexivity.
  - intros e log1 Hraise. unfold get_forecast, logger_info.
    unfold bind at 1. unfold try_except at 1.
    fold (forecast_info ticker). rewrite Hraise.
    eexists. reflexivity.
  - intros Hm. unfold get_forecast_try. unfold bind at 1.
    unfold default_period. rewrite fetch_stock_data_run, Hh.
    unfold bind at 1. rewrite iloc_last_Close_column by discriminate.
    unfold bind at 1. rewrite Hm. reflexivity.
Qed.

Lemma forecast_failures_give_500_witness :
  (exists log',
     get_forecast world_no_fit "ABC" []
     = (Return (mkResponse (JObj [("error", JStr "Failed to fit forecasting model")]) 500),
        log'))
  /\ (exists log',
        get_forecast world_no_forecast "ABC" []
        = (Return (mkResponse (JObj [("error", JStr "Failed to generate forecast")]) 500),
           log'))
  /\ (exists log',
        get_forecast world_late "ABC" []
        = (Return (mkResponse (JObj [("error", JStr "Out of bounds nanosecond timestamp")]) 500),
           log'))
  /\ (exists log',
        get_forecast world_past_max "ABC" []
        = (Return (mkResponse (JObj [("error", JStr "Out of bounds nanosecond timestamp")]) 500),
           log')).
Proof.
  repeat split.
  - apply (proj1 (forecast_failures_give_500 world_no_fit "ABC" _ _ [] eq_refl)
             _ fit_error eq_refl).
    reflexivity.
  - apply (proj1 (proj2 (forecast_failures_give_500 world_no_forecast "ABC" _ _ []
                           eq_refl))
             _ (mkResults (fun _ => inl forecast_error)) forecast_error eq_refl);
      reflexivity.
  - apply (proj1 (proj2 (proj2 (forecast_failures_give_500 world_late "ABC" _ _ []
                                  eq_refl)))
             out_of_bounds [forecast_info "ABC"]).
    reflexivity.
  - apply (proj1 (proj2 (proj2 (forecast_failures_give_500 world_past_max "ABC" _ _ []
                                  eq_refl)))
             out_of_bounds [forecast_info "ABC"]).
    apply (proj2 (proj2 (proj2 (forecast_failures_give_500 world_past_max "ABC" _ _ []
                                  eq_refl)))).
    reflexivity.
Defined.

(** C4. Whenever fitting and forecasting succeed (the statistics library
    returning as many values as steps asked), the 200 response of the forecast
    endpoint holds exactly 6 forecast entries, and its [forecastDates] and
    [forecastValues] arrays have exactly 6 elements each. *)
Theorem forecast_has_six_entries (w : World) (ticker : string)
    (log log' : list LogRecord) (r : Response) :
  forecast_contract w ->
  get_forecast w ticker log = (Return r, log') -> status r = 200%nat ->
  exists entries dates values,
    field "forecast" (body r) = Some (JArr entries)
    /\ field "forecastDates" (body r) = Some (JArr dates)
    /\ field "forecastValues" (body r) = Some (JArr values)
    /\ List.length entries = 6%nat
    /\ List.length dates = 6%nat
    /\ List.length values = 6%nat.
Proof.
  intros Hlib Hrun Hstatus.
  destruct (get_forecast_200 _ _ _ _ _ Hrun Hstatus)
    as (row & rows & first & monthly & results & vs & ds
        & _ & _ & Hfit & Hfc & Hd & ->).
  assert (Hpairs : List.length (combine (tl ds) vs) = 6%nat).
  { rewrite length_combine, (Hlib _ _ _ _ Hfit Hfc).
    apply date_range_M_length in Hd.
    destruct ds as [|d ds]; [discriminate|]. cbn in *. lia. }
  eexists _, _, _. cbn [body forecast_payload field lookup String.eqb Ascii.eqb Bool.eqb].
  repeat split; rewrite ?length_map; exact Hpairs.
Qed.

Lemma forecast_has_six_entries_witness :
  exists entries dates values,
    field "forecast" (body (response_of world_ok "ABC")) = Some (JArr entries)
    /\ field "forecastDates" (body (response_of world_ok "ABC"))
       = Some (JArr dates)
    /\ field "forecastValues" (body (response_of world_ok "ABC"))
       = Some (JArr values)
    /\ List.length entries = 6%nat
    /\ List.length dates = 6%nat
    /\ List.length values = 6%nat.
Proof.
  apply (forecast_has_six_entries world_ok "ABC" []
           (snd (get_forecast world_ok "ABC" []))).
  - intros data results steps values Hfit Hfc.
    injection Hfit as <-. injection Hfc as <-. apply repeat_length.
  - reflexivity.
  - reflexivity.
Defined.

(** C6. In every successful forecast response, [forecastValues] is the
    sequence of the [Forecast] fields of the entries of [forecast], and
    [forecastDates] is the sequence of their [Date] fields. *)
Theorem forecast_arrays_mirror_entries (w : World) (ticker : string)
    (log log' : list LogRecord) (r : Response) :
  get_forecast w ticker log = (Return r, log') -> status r = 200%nat ->
  exists entries dates values,
    field "forecast" (body r) = Some (JArr (map JObj entries))
    /\ field "forecastDates" (body r) = Some (JArr dates)
    /\ field "forecastValues" (body r) = Some (JArr values)
    /\ map (lookup "Date") entries = map Some dates
    /\ map (lookup "Forecast") entries = map Some values.
Proof.
  intros Hrun Hstatus.
  destruct (get_forecast_200 _ _ _ _ _ Hrun Hstatus)
    as (row & rows & first & monthly & results & vs & ds & _ & _ & _ & _ & _ & ->).
  eexists _, _, _. cbn [body forecast_payload field lookup String.eqb Ascii.eqb Bool.eqb].
  repeat split; rewrite !map_map; reflexivity.
Qed.

Lemma forecast_arrays_mirror_entries_witness :
  exists entries dates values,
    field "forecast" (body (response_of world_ok "ABC")) = Some (JArr (map JObj entries))
    /\ field "forecastDates" (body (response_of world_ok "ABC")) = Some (JArr dates)
    /\ field "forecastValues" (body (response_of world_ok "ABC")) = Some (JArr values)
    /\ map (lookup "Date") entries = map Some dates
    /\ map (lookup "Forecast") entries = map Some values.
Proof.
  apply (forecast_arrays_mirror_entries world_ok "ABC" []
           (snd (get_forecast world_ok "ABC" []))).
  - reflexivity.
  - reflexivity.
Defined.

(** C5. In every successful forecast response, [forecastDates] are the texts
    of dates that are strictly increasing, each the month-end of the month
    after the date before it, the first one following the last historical
    month-end (the last label of the monthly series the resampling
    returned). *)
Theorem forecast_dates_follow_history (w : World) (ticker : string)
    (log log' : list LogRecord) (r : Response) :
  get_forecast w ticker log = (Return r, log') -> status r = 200%nat ->
  exists rows monthly earlier last_historical future,
    history w (ticker ++ ".KA") "5y" = inr rows
    /\ resample_monthly (Close_column rows) = Some monthly
    /\ Series_index monthly = (earlier ++ [last_historical])%list
    /\ field "historicalDates" (body r)
       = Some (JArr (map JStr (map strftime (earlier ++ [last_historical]))))
    /\ field "forecastDates" (body r) = Some (JArr (map JStr (map strftime future)))
    /\ is_month_end last_historical = true
    /\ StronglySorted ts_lt future
    /\ follows_month_by_month last_historical future.
Proof.
  intros Hrun Hstatus.
  destruct (get_forecast_200 _ _ _ _ _ Hrun Hstatus)
    as (row & rows & first & monthly & results & vs & ds
        & Hh & Hm & _ & _ & Hd & ->).
  destruct (resample_monthly_some _ _ Hm) as [Hp _].
  destruct (last_per_month_last_label _ _ _ Hp) as (k & Hk).
  rewrite Hk in Hd. apply date_range_M_month_end in Hd. subst ds.
  change (tl (map month_end (month_range k 7)))
    with (map month_end (month_range (k + 1) 6)).
  assert (Hne : Series_index (first :: monthly) <> []) by discriminate.
  destruct (exists_last Hne) as (earlier & last_historical & Hsplit).
  assert (Hlast : last_historical = month_end k).
  { rewrite <- Hk. unfold Series_index in Hsplit.
    rewrite <- (last_map_nonempty fst (first :: monthly) first (fst first))
      by discriminate.
    rewrite Hsplit. now rewrite last_last. }
  exists (row :: rows), (first :: monthly), earlier, last_historical,
    (map fst (combine (map month_end (month_range (k + 1) 6)) vs)).
  rewrite <- Hsplit.
  cbn [body forecast_payload field lookup String.eqb Ascii.eqb Bool.eqb].
  rewrite !map_map, combine_fst_month_ends, Hlast.
  repeat split.
  - exact Hh.
  - exact Hm.
  - apply is_month_end_month_end.
  - apply StronglySorted_month_ends.
  - apply follows_month_ends.
Qed.

Lemma forecast_dates_follow_history_witness :
  exists rows monthly earlier last_historical future,
    history world_ok "ABC.KA" "5y" = inr rows
    /\ resample_monthly (Close_column rows) = Some monthly
    /\ Series_index monthly = (earlier ++ [last_historical])%list
    /\ field "historicalDates" (body (response_of world_ok "ABC"))
       = Some (JArr (map JStr (map strftime (earlier ++ [last_historical]))))
    /\ field "forecastDates" (body (response_of world_ok "ABC"))
       = Some (JArr (map JStr (map strftime future)))
    /\ is_month_end last_historical = true
    /\ StronglySorted ts_lt future
    /\ follows_month_by_month last_historical future.
Proof.
  apply (forecast_dates_follow_history world_ok "ABC" []
           (snd (get_forecast world_ok "ABC" []))).
  - reflexivity.
  - reflexivity.
Defined.

(* ================================================================== *)
(** ** A sample response *)
(* ================================================================== *)

(** The forecast dates of the January sample. *)
Example forecast_dates_of_january :
  field "forecastDates" (body (response_of world_ok "ABC"))
  = Some (JArr [JStr "29-02-2024"; JStr "31-03-2024"; JStr "30-04-2024";
                JStr "31-05-2024"; JStr "30-06-2024"; JStr "31-07-2024"]).
Proof. vm_compute. reflexivity. Qed.

(* ================================================================== *)
(** ** More of the helpers: [fetch_stock_data], [fit_sarimax], [forecast] *)
(* ================================================================== *)

(** X1. A series [fetch_stock_data] returns is never empty: it is the close
    column of the rows the provider answered, nothing was logged, and
    [iloc[-1]] on it cannot fail. *)
Theorem fetch_stock_data_some (w : World) (ticker period : string)
    (log log' : list LogRecord) (s : Series) :
  fetch_stock_data w ticker period log = (Return (Some s), log') ->
  s <> []
  /\ log' = log
  /\ (exists rows, history w ticker period = inr rows /\ s = Close_column rows)
  /\ (exists price, iloc_last s log' = (Return price, log')).
Proof.
  rewrite fetch_stock_data_run.
  destruct (history w ticker period) as [e|[|row rows]] eqn:Hh; try discriminate.
  intros H. injection H as <- <-. repeat split.
  - discriminate.
  - exists (row :: rows). split; reflexivity.
  - eexists. apply (iloc_last_Close_column (row :: rows)). discriminate.
Qed.

Lemma fetch_stock_data_some_witness :
  Close_column january_rows <> []
  /\ (exists price,
        iloc_last (Close_column january_rows) [] = (Return price, [])).
Proof.
  destruct (fetch_stock_data_some world_ok "ABC.KA" "5y" [] []
              (Close_column january_rows) eq_refl) as (Hne & _ & _ & Hlast).
  split; assumption.
Defined.

(** X2. [fit_sarimax] never raises: when building the model or fitting it
    raises, it returns [None] and appends one error record with the error
    text; otherwise it returns the fitted model and logs nothing. *)
Theorem fit_sarimax_never_raises (w : World) (data : Series) (log : list LogRecord) :
  exists r log',
    fit_sarimax w data log = (Return r, log') /\
    match SARIMAX w data (1, 1, 1)%Z (1, 1, 1, 12)%Z with
    | inl e => r = None /\ log' = (log ++ [fit_error_record e])%list
    | inr model =>
        match fit_method model with
        | inl e => r = None /\ log' = (log ++ [fit_error_record e])%list
        | inr results => r = Some results /\ log' = log
        end
    end.
Proof.
  rewrite fit_sarimax_run. unfold fitted.
  destruct (SARIMAX w data _ _) as [e|model].
  - eexists _, _. repeat split.
  - destruct (fit_method model) as [e|results]; eexists _, _; repeat split.
Qed.

(** X3. [forecast] never raises: when the model's forecast raises, it
    returns [None] and appends one error record with the error text;
    otherwise it returns the values unchanged and logs nothing. *)
Theorem forecast_never_raises (model : SARIMAXResults) (steps : nat)
    (log : list LogRecord) :
  exists r log',
    forecast model steps log = (Return r, log') /\
    match forecast_method model steps with
    | inl e => r = None /\ log' = (log ++ [generate_error_record e])%list
    | inr values => r = Some values /\ log' = log
    end.
Proof.
  rewrite forecast_run.
  destruct (forecast_method model steps) as [e|values]; eexists _, _; repeat split.
Qed.

(* ================================================================== *)
(** ** More of the endpoints *)
(* ================================================================== *)

(** X4. The current-value endpoint answers 200 exactly when the provider
    answered the symbol [<ticker>.KA] over ["5y"] with at least one row. *)
Theorem current_value_200_iff (w : World) (ticker : string)
    (log log' : list LogRecord) (r : Response) :
  get_current_value w ticker log = (Return r, log') ->
  (status r = 200%nat <->
   exists row rows, history w (ticker ++ ".KA") "5y" = inr (row :: rows)).
Proof.
  rewrite get_current_value_cases.
  destruct (history w (ticker ++ ".KA") "5y") as [e|[|row rows]];
    intros H; injection H as <- _; split.
  - discriminate.
  - intros (row & rows & H). discriminate.
  - discriminate.
  - intros (row & rows & H). discriminate.
  - intros _. now exists row, rows.
  - reflexivity.
Qed.

Lemma current_value_200_iff_witness :
  (status (mkResponse (JObj [("currentPrice", JNum 105%float)]) 200) = 200%nat <->
   exists row rows, history world_ok "ABC.KA" "5y" = inr (row :: rows))
  /\ (status (invalid_ticker "ABC") = 200%nat <->
      exists row rows, history world_down "ABC.KA" "5y" = inr (row :: rows)).
Proof.
  split.
  - apply (current_value_200_iff world_ok "ABC" []
             (snd (get_current_value world_ok "ABC" []))).
    reflexivity.
  - apply (current_value_200_iff world_down "ABC" []
             (snd (get_current_value world_down "ABC" []))).
    reflexivity.
Defined.

(** X5. The forecast endpoint never lets an exception escape: it always
    returns a response, whose status is 200, 400 or 500, and it is 400 exactly
    when the provider raised or answered without rows. *)
Theorem forecast_always_responds (w : World) (ticker : string) (log : list LogRecord) :
  exists r log',
    get_forecast w ticker log = (Return r, log')
    /\ (status r = 200%nat \/ status r = 400%nat \/ status r = 500%nat)
    /\ (status r = 400%nat <->
        (history w (ticker ++ ".KA") "5y" = inr []
         \/ exists e, history w (ticker ++ ".KA") "5y" = inl e)).
Proof.
  rewrite get_forecast_cases.
  destruct (history w (ticker ++ ".KA") "5y") as [e|[|row rows]].
  - eexists _, _. split; [reflexivity|]. split; [right; left; reflexivity|].
    split; [intros _; right; now exists e | reflexivity].
  - eexists _, _. split; [reflexivity|]. split; [right; left; reflexivity|].
    split; [intros _; now left | reflexivity].
  - cbv zeta.
    assert (Hno : ~ ((inr (row :: rows) : exn + DataFrame) = inr []
                     \/ exists e, (inr (row :: rows) : exn + DataFrame) = inl e)).
    { intros [H | [e H]]; discriminate. }
    destruct (resample_monthly (Close_column (row :: rows))) as [monthly_data|].
    2:{ eexists _, _. split; [reflexivity|]. split; [right; right; reflexivity|].
        split; [discriminate | intros H; now destruct Hno]. }
    destruct (fitted w _) as [e|results].
    { eexists _, _. split; [reflexivity|]. split; [right; right; reflexivity|].
      split; [discriminate | intros H; now destruct Hno]. }
    destruct (forecast_method results 6) as [e|values].
    { eexists _, _. split; [reflexivity|]. split; [right; right; reflexivity|].
      split; [discriminate | intros H; now destruct Hno]. }
    destruct monthly_data as [|first monthly].
    { eexists _, _. split; [reflexivity|]. split; [right; right; reflexivity|].
      split; [discriminate | intros H; now destruct Hno]. }
    destruct (date_range_M _ 7) as [dates|].
    + eexists _, _. split; [reflexivity|]. split; [left; reflexivity|].
      split; [discriminate | intros H; now destruct Hno].
    + eexists _, _. split; [reflexivity|]. split; [right; right; reflexivity|].
      split; [discriminate | intros H; now destruct Hno].
Qed.

(** X6. The current-value endpoint asks the provider one question only, the
    symbol [<ticker>.KA] over ["5y"]: two worlds that answer it alike give the
    same response and the same log, whatever else differs between them. *)
Theorem current_value_one_query (w1 w2 : World) (ticker : string)
    (log : list LogRecord) :
  history w1 (ticker ++ ".KA") "5y" = history w2 (ticker ++ ".KA") "5y" ->
  get_current_value w1 ticker log = get_current_value w2 ticker log.
Proof. intros H. rewrite !get_current_value_cases, H. reflexivity. Qed.

Lemma current_value_one_query_witness :
  get_current_value world_ok "ABC" []
  = get_current_value (world_single "ABC.KA" january_rows) "ABC" [].
Proof.
  apply (current_value_one_query world_ok (world_single "ABC.KA" january_rows) "ABC" []).
  reflexivity.
Defined.

(** X7. The forecast endpoint reads the world through three things only: the
    provider's answer for [<ticker>.KA] over ["5y"], the model built with the
    orders (1,1,1) and (1,1,1,12), and the error raised past [Timestamp.max].
    Two worlds that agree on these give the same response and the same log. *)
Theorem forecast_fixed_queries (w1 w2 : World) (ticker : string)
    (log : list LogRecord) :
  history w1 (ticker ++ ".KA") "5y" = history w2 (ticker ++ ".KA") "5y" ->
  (forall data, SARIMAX w1 data (1, 1, 1)%Z (1, 1, 1, 12)%Z
                = SARIMAX w2 data (1, 1, 1)%Z (1, 1, 1, 12)%Z) ->
  OutOfBoundsDatetime w1 = OutOfBoundsDatetime w2 ->
  get_forecast w1 ticker log = get_forecast w2 ticker log.
Proof.
  intros Hh Hm Ho. rewrite !get_forecast_cases, Hh.
  destruct (history w2 (ticker ++ ".KA") "5y") as [e|[|row rows]]; try reflexivity.
  rewrite Ho.
  destruct (resample_monthly (Close_column (row :: rows))) as [monthly_data|];
    [| reflexivity].
  unfold fitted. rewrite Hm. reflexivity.
Qed.

Lemma forecast_fixed_queries_witness :
  get_forecast world_ok "ABC" []
  = get_forecast (world_single "ABC.KA" january_rows) "ABC" [].
Proof.
  apply (forecast_fixed_queries world_ok (world_single "ABC.KA" january_rows) "ABC" []).
  - reflexivity.
  - intros data. reflexivity.
  - reflexivity.
Defined.

(** X8. The current-value endpoint only appends to the log: first the INFO
    record of the request, then at most two ERROR records; it appends no
    ERROR record exactly when it answers 200. *)
Theorem current_value_log (w : World) (ticker : string)
    (log log' : list LogRecord) (r : Response) :
  get_current_value w ticker log = (Return r, log') ->
  exists errors,
    log' = (log ++ current_value_info ticker :: errors)%list
    /\ (List.length errors <= 2)%nat
    /\ Forall (fun record => log_level record = ERROR) errors
    /\ (errors = [] <-> status r = 200%nat).
Proof.
  rewrite get_current_value_cases.
  destruct (history w (ticker ++ ".KA") "5y") as [e|[|row rows]];
    intros H; injection H as <- <-.
  - exists [fetch_error_record (ticker ++ ".KA") e; current_value_error ticker no_iloc].
    repeat split; try discriminate.
    + cbn. lia.
    + repeat constructor.
  - exists [current_value_error ticker no_iloc].
    repeat split; try discriminate.
    + cbn. lia.
    + repeat constructor.
  - exists []. repeat split.
    + cbn. lia.
    + constructor.
Qed.

Lemma current_value_log_witness :
  exists errors,
    snd (get_current_value world_down "ABC" [])
    = ([] ++ current_value_info "ABC" :: errors)%list
    /\ (List.length errors <= 2)%nat
    /\ Forall (fun record => log_level record = ERROR) errors
    /\ (errors = [] <-> status (invalid_ticker "ABC") = 200%nat).
Proof.
  apply (current_value_log world_down "ABC" []
           (snd (get_current_value world_down "ABC" []))).
  reflexivity.
Defined.

(** X9. The forecast endpoint only appends to the log: first the INFO record
    of the request, then at most one ERROR record, and none when it answers
    200. A provider answer without rows is answered 400 with no ERROR record
    at all. *)
Theorem forecast_log (w : World) (ticker : string)
    (log log' : list LogRecord) (r : Response) :
  get_forecast w ticker log = (Return r, log') ->
  exists errors,
    log' = (log ++ forecast_info ticker :: errors)%list
    /\ (List.length errors <= 1)%nat
    /\ Forall (fun record => log_level record = ERROR) errors
    /\ (status r = 200%nat -> errors = [])
    /\ (history w (ticker ++ ".KA") "5y" = inr [] -> errors = []).
Proof.
  rewrite get_forecast_cases.
  assert (Hone : forall record : LogRecord, log_level record = ERROR ->
            forall x : Response, status x <> 200%nat ->
            (exists row rows,
                history w (ticker ++ ".KA") "5y" = inr (row :: rows))
            \/ (exists e, history w (ticker ++ ".KA") "5y" = inl e) ->
            (Return x, (log ++ [forecast_info ticker] ++ [record])%list) = (Return r, log') ->
            exists errors,
              log' = (log ++ forecast_info ticker :: errors)%list
              /\ (List.length errors <= 1)%nat
              /\ Forall (fun record => log_level record = ERROR) errors
              /\ (status r = 200%nat -> errors = [])
              /\ (history w (ticker ++ ".KA") "5y" = inr [] -> errors = [])).
  { intros record Hlevel x Hx Hrows H. injection H as <- <-.
    exists [record]. repeat split.
    - cbn. lia.
    - now repeat constructor.
    - intros H. now contradiction Hx.
    - intros H. destruct Hrows as [(row & rows & Hr) | (e & Hr)]; congruence. }
  destruct (history w (ticker ++ ".KA") "5y") as [e|[|row rows]] eqn:Hh.
  - apply (Hone (fetch_error_record (ticker ++ ".KA") e)); [reflexivity | discriminate |].
    right. now exists e.
  - intros H. injection H as <- <-. exists []. repeat split.
    + cbn. lia.
    + constructor.
  - cbv zeta.
    assert (Hrows : (exists row0 rows0,
                        (inr (row :: rows) : exn + DataFrame) = inr (row0 :: rows0))
                    \/ (exists e, (inr (row :: rows) : exn + DataFrame) = inl e))
      by (left; now exists row, rows).
    destruct (resample_monthly (Close_column (row :: rows))) as [monthly_data|].
    2:{ apply (Hone (forecast_error_record ticker (OutOfBoundsDatetime w)));
          [reflexivity | discriminate | exact Hrows]. }
    destruct (fitted w _) as [e|results].
    { apply (Hone (fit_error_record e)); [reflexivity | discriminate | exact Hrows]. }
    destruct (forecast_method results 6) as [e|values].
    { apply (Hone (generate_error_record e)); [reflexivity | discriminate | exact Hrows]. }
    destruct monthly_data as [|first monthly].
    { apply (Hone (forecast_error_record ticker empty_index));
        [reflexivity | discriminate | exact Hrows]. }
    destruct (date_range_M _ 7) as [dates|].
    + intros H. injection H as <- <-. exists [].
      repeat split; cbn; try lia; try constructor.
    + apply (Hone (forecast_error_record ticker (OutOfBoundsDatetime w)));
        [reflexivity | discriminate | exact Hrows].
Qed.

Lemma forecast_log_witness :
  exists errors,
    snd (get_forecast world_empty "ABC" [])
    = ([] ++ forecast_info "ABC" :: errors)%list
    /\ (List.length errors <= 1)%nat
    /\ Forall (fun record => log_level record = ERROR) errors
    /\ (status (invalid_ticker "ABC") = 200%nat -> errors = [])
    /\ (history world_empty "ABC.KA" "5y" = inr [] -> errors = []).
Proof.
  apply (forecast_log world_empty "ABC" []
           (snd (get_forecast world_empty "ABC" []))).
  reflexivity.
Defined.

(** X10. The two endpoints agree on the price: whenever the forecast endpoint
    answers 200, the current-value endpoint answers 200 in the same world,
    with the same [currentPrice]. *)
Theorem forecast_price_is_current_value (w : World) (ticker : string)
    (log log' : list LogRecord) (r : Response) :
  get_forecast w ticker log = (Return r, log') -> status r = 200%nat ->
  exists r' log'' price,
    get_current_value w ticker log = (Return r', log'')
    /\ status r' = 200%nat
    /\ field "currentPrice" (body r) = Some (JNum price)
    /\ field "currentPrice" (body r') = Some (JNum price).
Proof.
  intros Hrun Hstatus.
  destruct (get_forecast_200 _ _ _ _ _ Hrun Hstatus)
    as (row & rows & first & monthly & results & vs & ds & Hh & _ & _ & _ & _ & ->).
  rewrite get_current_value_cases, Hh.
  eexists _, _, _. repeat split.
Qed.

Lemma forecast_price_is_current_value_witness :
  exists r' log'' price,
    get_current_value world_ok "ABC" [] = (Return r', log'')
    /\ status r' = 200%nat
    /\ field "currentPrice" (body (response_of world_ok "ABC")) = Some (JNum price)
    /\ field "currentPrice" (body r') = Some (JNum price).
Proof.
  apply (forecast_price_is_current_value world_ok "ABC" []
           (snd (get_forecast world_ok "ABC" []))).
  - reflexivity.
  - reflexivity.
Defined.

(** X11. Whatever the statistics library returns, a 200 response of the
    forecast endpoint never holds more than 6 forecast entries: [forecast],
    [forecastDates] and [forecastValues] have the same length, the smaller of
    6 and the number of values the model returned for 6 steps. *)
Theorem forecast_at_most_six (w : World) (ticker : string)
    (log log' : list LogRecord) (r : Response) :
  get_forecast w ticker log = (Return r, log') -> status r = 200%nat ->
  exists row rows monthly results returned entries dates values,
    history w (ticker ++ ".KA") "5y" = inr (row :: rows)
    /\ resample_monthly (Close_column (row :: rows)) = Some monthly
    /\ fitted w monthly = inr results
    /\ forecast_method results 6 = inr returned
    /\ field "forecast" (body r) = Some (JArr entries)
    /\ field "forecastDates" (body r) = Some (JArr dates)
    /\ field "forecastValues" (body r) = Some (JArr values)
    /\ List.length entries = Nat.min 6 (List.length returned)
    /\ List.length dates = Nat.min 6 (List.length returned)
    /\ List.length values = Nat.min 6 (List.length returned).
Proof.
  intros Hrun Hstatus.
  destruct (get_forecast_200 _ _ _ _ _ Hrun Hstatus)
    as (row & rows & first & monthly & results & vs & ds
        & Hh & Hm & Hfit & Hfc & Hd & ->).
  assert (Hpairs : List.length (combine (tl ds) vs) = Nat.min 6 (List.length vs)).
  { rewrite length_combine. apply date_range_M_length in Hd.
    destruct ds as [|d ds]; [discriminate|]. cbn in *.
    injection Hd as ->. reflexivity. }
  exists row, rows, (first :: monthly), results, vs. eexists _, _, _.
  cbn [body forecast_payload field lookup String.eqb Ascii.eqb Bool.eqb].
  repeat split; try assumption; rewrite ?length_map; exact Hpairs.
Qed.

Lemma forecast_at_most_six_witness :
  exists entries,
    field "forecast" (body (response_of world_short_forecast "ABC")) = Some (JArr entries)
    /\ List.length entries = 3%nat.
Proof.
  destruct (forecast_at_most_six world_short_forecast "ABC" []
              (snd (get_forecast world_short_forecast "ABC" []))
              (response_of world_short_forecast "ABC") eq_refl eq_refl)
    as (row & rows & monthly & results & returned & entries & dates & values
        & Hh & _ & Hfit & Hfc & He & _ & _ & Hlen & _).
  exists entries. split; [exact He|].
  injection Hh as <- <-. injection Hfit as <-. injection Hfc as <-. exact Hlen.
Defined.

(* ================================================================== *)
(** ** More of the resampler *)
(* ================================================================== *)

Lemma insert_row_In x y s : In y (insert_row x s) <-> y = x \/ In y s.
Proof.
  induction s as [|z s IH]; cbn [insert_row].
  - cbn. intuition congruence.
  - destruct (ts_leb (fst x) (fst z)); cbn [In] in *; [intuition congruence|].
    rewrite IH. intuition congruence.
Qed.

Lemma sort_index_In y s : In y (sort_index s) <-> In y s.
Proof.
  induction s as [|x s IH]; [reflexivity|].
  change (sort_index (x :: s)) with (insert_row x (sort_index s)).
  rewrite insert_row_In, IH. cbn [In]. intuition congruence.
Qed.

Lemma valid_date_month_end m : valid_date (month_end m) = true.
Proof.
  unfold valid_date, month_end. cbn [year month day].
  pose proof (days_in_month_bound (m / 12) (m mod 12 + 1)).
  rewrite !andb_true_iff, !Z.leb_le. repeat split; try lia; div_mod_lia.
Qed.

Lemma last_In {A : Type} (l : list A) (d : A) : l <> [] -> In (last l d) l.
Proof.
  intros Hne. destruct (exists_last Hne) as (l' & x & ->).
  rewrite last_last. apply in_or_app. right. now left.
Qed.

(** Filtering keeps the last element when the last element passes. *)
Lemma last_filter_true {A : Type} (f : A -> bool) (l : list A) (d : A) :
  l <> [] -> f (last l d) = true -> last (filter f l) d = last l d.
Proof.
  intros Hne Hf. destruct (exists_last Hne) as (l' & x & ->).
  rewrite last_last in *. rewrite filter_app. cbn [filter]. rewrite Hf.
  apply last_last.
Qed.

(** The rows built from one row per month of a range keep labels and months,
    and take [last()] of each single value. *)
Lemma last_per_month_rows value lo n :
  last_per_month (map (month_row value) (month_range lo n))
  = map (fun m => (month_end m, last_valid [value m])) (month_range lo n).
Proof.
  rewrite last_per_month_bins.
  rewrite (sort_index_sorted _ (monthly_rows_monotonic value lo n)).
  rewrite monthly_rows_bins.
  apply map_ext_in. intros m Hm. unfold bin_row.
  now rewrite (monthly_rows_filter value m lo n Hm).
Qed.

(** A series of valid month-end labels without a skipped month is one row
    per month of a range. *)
Lemma consecutive_months_rows s :
  forallb (fun row => valid_date (fst row) && is_month_end (fst row)) s = true ->
  consecutive_months s = true ->
  exists value lo,
    s = map (month_row value) (month_range lo (List.length s))
    /\ forall m, In m (month_range lo (List.length s)) -> In (month_end m, value m) s.
Proof.
  induction s as [|x s IH]; intros Hv Hc.
  - exists (fun _ => nan), 0%Z. split; [reflexivity | intros m []].
  - cbn [forallb] in Hv. apply andb_true_iff in Hv as [Hx Hv].
    apply andb_true_iff in Hx as [Hxv Hxe].
    assert (Hxrow : x = (month_end (month_index (fst x)), snd x)).
    { rewrite (month_end_of_month_index _ Hxv Hxe). now destruct x. }
    destruct s as [|y s].
    + exists (fun _ => snd x), (month_index (fst x)). cbn [List.length month_range map].
      unfold month_row. split; [now rewrite <- Hxrow|].
      intros m [<-|[]]. left. now rewrite <- Hxrow.
    + change (consecutive_months (x :: y :: s))
        with ((month_index (fst y) =? month_index (fst x) + 1)%Z
              && consecutive_months (y :: s)) in Hc.
      apply andb_true_iff in Hc as [Hxy Hc]. apply Z.eqb_eq in Hxy.
      destruct (IH Hv Hc) as (value & lo & Hs & Hin).
      assert (Hlo : lo = (month_index (fst x) + 1)%Z).
      { rewrite <- Hxy. cbn [List.length month_range map] in Hs.
        injection Hs as Hy _. rewrite Hy. unfold month_row. cbn [fst].
        now rewrite month_index_month_end. }
      subst lo. set (lo := month_index (fst x)) in *.
      exists (fun m => if (m =? lo)%Z then snd x else value m), lo.
      assert (Hext : map (month_row (fun m => if (m =? lo)%Z then snd x else value m))
                         (month_range (lo + 1) (List.length (y :: s)))
                     = map (month_row value) (month_range (lo + 1) (List.length (y :: s)))).
      { apply map_ext_in. intros m Hm. apply month_range_In in Hm. unfold month_row.
        destruct (Z.eqb_spec m lo); [lia | reflexivity]. }
      split.
      * change (List.length (x :: y :: s)) with (S (List.length (y :: s))).
        cbn [month_range map]. rewrite Hext, <- Hs.
        unfold month_row at 1. rewrite Z.eqb_refl. now rewrite <- Hxrow.
      * intros m Hm.
        change (List.length (x :: y :: s)) with (S (List.length (y :: s))) in Hm.
        cbn [month_range In] in Hm. destruct Hm as [<-|Hm].
        -- left. rewrite Z.eqb_refl. now rewrite <- Hxrow.
        -- right. pose proof Hm as Hr. apply month_range_In in Hr.
           destruct (Z.eqb_spec m lo); [lia|]. now apply Hin.
Qed.

Lemma consecutive_monthly_rows value lo n :
  consecutive_months (map (month_row value) (month_range lo n)) = true.
Proof.
  revert lo. induction n as [|n IH]; intros lo; [reflexivity|].
  cbn [month_range map]. specialize (IH (lo + 1)%Z).
  destruct n as [|n]; [reflexivity|].
  cbn [month_range map] in *. cbn [consecutive_months].
  apply andb_true_iff. split; [| exact IH].
  unfold month_row. cbn [fst]. rewrite !month_index_month_end. apply Z.eqb_refl.
Qed.

(** The last row built from a price series: the end of the month of the
    last bar, with the close of the last bar. *)
Lemma last_per_month_last_row s d d' :
  price_series s = true -> s <> [] ->
  last (last_per_month s) d
  = (month_end (month_index (fst (last s d'))), snd (last s d')).
Proof.
  unfold price_series. rewrite !andb_true_iff. intros [[Hv Hs] Hnum] Hne.
  destruct s as [|first rest]; [congruence|].
  rewrite last_per_month_bins, (sort_index_sorted _ Hs).
  pose proof (sorted_month_bounds rest first Hv Hs first (or_introl eq_refl)) as Hb.
  unfold month_bins.
  set (lo := month_index (fst first)) in *.
  set (hi := month_index (fst (last (first :: rest) first))) in *.
  destruct (Z.to_nat (hi - lo + 1)) as [|n] eqn:Hn; [lia|].
  rewrite (last_map_nonempty _ (month_range lo (S n)) lo) by (cbn; discriminate).
  rewrite month_range_last. replace (lo + Z.of_nat n)%Z with hi by lia.
  assert (Hlast : last (first :: rest) d' = last (first :: rest) first)
    by (apply last_nonempty_default; discriminate).
  rewrite Hlast. fold hi.
  assert (Hin : in_month hi (last (first :: rest) first) = true)
    by (unfold in_month; apply Z.eqb_refl).
  rewrite (bin_row_last (first :: rest) hi first Hnum).
  - now rewrite (last_filter_true _ _ _ Hne Hin).
  - intros Hnil.
    assert (Hf : In (last (first :: rest) first) (filter (in_month hi) (first :: rest))).
    { apply filter_In. split; [now apply last_In | exact Hin]. }
    rewrite Hnil in Hf. exact Hf.
Qed.

(** Every number among the rows of [last_per_month] is a close of the input,
    of a row in the month of the label. *)
Lemma last_per_month_values_from_input (s : Series) (t : Timestamp) (v : float) :
  In (t, v) (last_per_month s) -> is_nan v = false ->
  exists t', In (t', v) s /\ t = month_end (month_index t').
Proof.
  rewrite last_per_month_bins. intros Hin Hnum.
  apply in_map_iff in Hin as (m & Hrow & _). unfold bin_row in Hrow.
  injection Hrow as <- Hv. unfold last_valid in Hv.
  destruct (find (fun x => negb (is_nan x))
                 (rev (tolist (filter (in_month m) (sort_index s))))) as [x|] eqn:Hfind.
  - subst x. apply find_some in Hfind as [Hx _].
    apply in_rev in Hx. unfold tolist in Hx.
    apply in_map_iff in Hx as ([t' v'] & Hv' & Hrow). cbn [snd] in Hv'. subst v'.
    apply filter_In in Hrow as [Hrow Hm]. apply (proj1 (sort_index_In _ _)) in Hrow.
    unfold in_month in Hm. cbn [fst] in Hm. apply Z.eqb_eq in Hm.
    exists t'. split; [exact Hrow | now rewrite Hm].
  - subst v. discriminate Hnum.
Qed.

(** The rows of [last_per_month] for a monthly series of numbers with
    month-end labels and no skipped month are the series itself. *)
Lemma last_per_month_fixed_point (s : Series) :
  already_monthly s = true -> consecutive_months s = true -> no_missing s = true ->
  last_per_month s = s.
Proof.
  unfold already_monthly. rewrite andb_true_iff. intros [Hv _] Hc Hnum.
  destruct (consecutive_months_rows s Hv Hc) as (value & lo & Hs & Hin).
  assert (Hvalues : forall m, In m (month_range lo (List.length s)) ->
                              last_valid [value m] = value m).
  { intros m Hm. specialize (Hin m Hm).
    unfold no_missing in Hnum. rewrite forallb_forall in Hnum.
    specialize (Hnum _ Hin). cbn [snd] in Hnum.
    unfold last_valid. cbn. now rewrite Hnum. }
  remember (List.length s) as n. rewrite Hs, last_per_month_rows.
  apply map_ext_in. intros m Hm. unfold month_row. now rewrite (Hvalues m Hm).
Qed.

(* ================================================================== *)
(** ** More of the forecast response *)
(* ================================================================== *)

(** Rows of [last_per_month] that are not empty span the months from the
    month of one input row to the month of another. *)
Lemma last_per_month_range s :
  last_per_month s = []
  \/ exists lo n first_row last_row,
       In first_row s /\ In last_row s
       /\ lo = month_index (fst first_row)
       /\ (lo + Z.of_nat n)%Z = month_index (fst last_row)
       /\ last_per_month s = map (bin_row (sort_index s)) (month_range lo (S n)).
Proof.
  rewrite last_per_month_bins. unfold month_bins.
  destruct (sort_index s) as [|f rest] eqn:Hsorted; [now left|].
  set (lo := month_index (fst f)).
  set (hi := month_index (fst (last (f :: rest) f))).
  destruct (Z.to_nat (hi - lo + 1)) as [|n] eqn:Hn; [now left|].
  right. exists lo, n, f, (last (f :: rest) f). repeat split.
  - apply sort_index_In. rewrite Hsorted. now left.
  - apply sort_index_In. rewrite Hsorted. apply last_In. discriminate.
  - fold hi. lia.
Qed.

Lemma last_per_month_nonempty s :
  valid_index s = true -> is_monotonic_increasing s = true -> s <> [] ->
  last_per_month s <> [].
Proof.
  intros Hv Hs Hne. destruct s as [|first rest]; [congruence|].
  rewrite last_per_month_bins, (sort_index_sorted _ Hs).
  pose proof (sorted_month_bounds rest first Hv Hs first (or_introl eq_refl)) as Hb.
  unfold month_bins.
  destruct (Z.to_nat _) as [|n] eqn:Hn; [lia | discriminate].
Qed.

Lemma month_range_app lo n k :
  (month_range lo n ++ month_range (lo + Z.of_nat n) k)%list = month_range lo (n + k).
Proof.
  revert lo. induction n as [|n IH]; intros lo.
  - cbn [month_range app Nat.add]. now replace (lo + Z.of_nat 0)%Z with lo by lia.
  - cbn [month_range app Nat.add]. f_equal.
    rewrite <- IH. now replace (lo + 1 + Z.of_nat n)%Z with (lo + Z.of_nat (S n))%Z by lia.
Qed.

Lemma date_range_M_bounded start periods dates :
  date_range_M start periods = Some dates ->
  Forall (fun t => ts_leb t Timestamp_max = true) dates.
Proof.
  unfold date_range_M.
  destruct (forallb _ _) eqn:Hb; [| discriminate].
  intros H. injection H as <-. apply Forall_forall. now apply forallb_forall.
Qed.

Lemma month_end_year_bounds j :
  (0 <= j)%Z -> ts_leb (month_end j) Timestamp_max = true ->
  (0 <= year (month_end j) <= 9999)%Z.
Proof.
  intros Hj Hle. unfold month_end in *. cbn [year] in *.
  split; [div_mod_lia|].
  unfold ts_leb, ts_compare, Timestamp_max in Hle. cbn [year month day] in Hle.
  destruct (Z.compare_spec (j / 12) 2262) as [H|H|H]; [lia | lia | discriminate].
Qed.

Lemma NoDup_map_injective_on {A B : Type} (f : A -> B) (l : list A) :
  (forall a b, In a l -> In b l -> f a = f b -> a = b) ->
  NoDup l -> NoDup (map f l).
Proof.
  induction l as [|x l IH]; intros Hinj Hnd; cbn [map]; constructor.
  - intros Hin. apply in_map_iff in Hin as (y & Hxy & Hy).
    inversion Hnd as [|? ? Hx _]; subst. apply Hx.
    rewrite <- (Hinj y x); [exact Hy | now right | now left | exact Hxy].
  - inversion Hnd; subst. apply IH; [| assumption].
    intros a b Ha Hb. apply Hinj; now right.
Qed.

Lemma common_era_month_index s row :
  common_era s = true -> In row s -> (0 <= month_index (fst row))%Z.
Proof.
  unfold common_era. rewrite forallb_forall. intros H Hin.
  specialize (H _ Hin). apply andb_true_iff in H as [Hv Hy].
  unfold valid_date in Hv. rewrite !andb_true_iff, !Z.leb_le in Hv.
  apply Z.leb_le in Hy. unfold month_index. lia.
Qed.

(** X17. In a 200 response of the forecast endpoint, [historicalDates] and
    [historicalValues] are the labels and the values of the monthly series
    the resampling of the provider's closes returned: they have the same
    length, at least one, and the labels are month-ends in strictly
    increasing order with no month skipped. *)
Theorem forecast_history_arrays (w : World) (ticker : string)
    (log log' : list LogRecord) (r : Response) :
  get_forecast w ticker log = (Return r, log') -> status r = 200%nat ->
  exists rows monthly labels values,
    history w (ticker ++ ".KA") "5y" = inr rows
    /\ resample_monthly (Close_column rows) = Some monthly
    /\ labels = Series_index monthly
    /\ values = tolist monthly
    /\ field "historicalDates" (body r) = Some (JArr (map JStr (map strftime labels)))
    /\ field "historicalValues" (body r) = Some (JArr (map JNum values))
    /\ List.length labels = List.length values
    /\ (1 <= List.length labels)%nat
    /\ Forall (fun t => is_month_end t = true) labels
    /\ StronglySorted ts_lt labels
    /\ consecutive_months monthly = true.
Proof.
  intros Hrun Hstatus.
  destruct (get_forecast_200 _ _ _ _ _ Hrun Hstatus)
    as (row & rows & first & monthly & results & vs & ds & Hh & Hm & _ & _ & _ & ->).
  destruct (resample_monthly_some _ _ Hm) as [Hp _].
  exists (row :: rows), (first :: monthly). eexists _, _.
  split; [exact Hh|]. split; [exact Hm|]. split; [reflexivity|]. split; [reflexivity|].
  cbn [body forecast_payload field lookup String.eqb Ascii.eqb Bool.eqb].
  split; [reflexivity|]. split; [reflexivity|].
  split; [unfold Series_index, tolist; now rewrite !length_map|].
  split; [cbn; lia|].
  rewrite <- Hp, last_per_month_bins.
  destruct (month_bins_range (sort_index (Close_column (row :: rows)))) as (lo & n & ->).
  set (value := fun m => last_valid (tolist (filter (in_month m)
                            (sort_index (Close_column (row :: rows)))))).
  change (bin_row (sort_index (Close_column (row :: rows)))) with (month_row value).
  unfold Series_index. rewrite map_map. cbn [month_row fst]. repeat split.
  - apply Forall_forall. intros t Ht. apply in_map_iff in Ht as (m & <- & _).
    apply is_month_end_month_end.
  - apply StronglySorted_month_ends.
  - apply consecutive_monthly_rows.
Qed.

Lemma forecast_history_arrays_witness :
  exists rows monthly labels values,
    history world_ok "ABC.KA" "5y" = inr rows
    /\ resample_monthly (Close_column rows) = Some monthly
    /\ labels = Series_index monthly
    /\ values = tolist monthly
    /\ field "historicalDates" (body (response_of world_ok "ABC"))
       = Some (JArr (map JStr (map strftime labels)))
    /\ field "historicalValues" (body (response_of world_ok "ABC"))
       = Some (JArr (map JNum values))
    /\ List.length labels = List.length values
    /\ (1 <= List.length labels)%nat
    /\ Forall (fun t => is_month_end t = true) labels
    /\ StronglySorted ts_lt labels
    /\ consecutive_months monthly = true.
Proof.
  apply (forecast_history_arrays world_ok "ABC" []
           (snd (get_forecast world_ok "ABC" []))).
  - reflexivity.
  - reflexivity.
Defined.

(** X18. When the provider's bars are a price series (ascending valid dates,
    every close a number), the last element of [historicalValues] in a 200
    response of the forecast endpoint is its [currentPrice]. *)
Theorem forecast_history_ends_at_price (w : World) (ticker : string)
    (log log' : list LogRecord) (r : Response) (rows : DataFrame) :
  get_forecast w ticker log = (Return r, log') -> status r = 200%nat ->
  history w (ticker ++ ".KA") "5y" = inr rows ->
  price_series (Close_column rows) = true ->
  exists earlier price,
    field "historicalValues" (body r) = Some (JArr (map JNum (earlier ++ [price])))
    /\ field "currentPrice" (body r) = Some (JNum price).
Proof.
  intros Hrun Hstatus Hrows Hp.
  destruct (get_forecast_200 _ _ _ _ _ Hrun Hstatus)
    as (row & rows' & first & monthly & results & vs & ds & Hh & Hm & _ & _ & _ & ->).
  rewrite Hrows in Hh. injection Hh as ->.
  apply resample_monthly_some in Hm as [Hm _].
  assert (Hne : tolist (first :: monthly) <> []) by discriminate.
  destruct (exists_last Hne) as (earlier & price & Hsplit).
  exists earlier, price.
  cbn [body forecast_payload field lookup String.eqb Ascii.eqb Bool.eqb].
  rewrite Hsplit. split; [reflexivity|]. do 2 f_equal.
  assert (Hlast : last (tolist (first :: monthly)) nan = price)
    by (rewrite Hsplit; apply last_last).
  rewrite <- Hlast, <- Hm. unfold tolist.
  rewrite (last_map_nonempty snd _ first) by (rewrite Hm; discriminate).
  rewrite (last_per_month_last_row _ first (Date row, Close row) Hp) by discriminate.
  cbn [snd]. unfold Close_column.
  rewrite (last_map_nonempty (fun r => (Date r, Close r)) (row :: rows') row)
    by discriminate.
  rewrite (last_map_nonempty Close (row :: rows') row) by discriminate.
  reflexivity.
Qed.

Lemma forecast_history_ends_at_price_witness :
  exists earlier price,
    field "historicalValues" (body (response_of world_ok "ABC"))
    = Some (JArr (map JNum (earlier ++ [price])))
    /\ field "currentPrice" (body (response_of world_ok "ABC")) = Some (JNum price).
Proof.
  apply (forecast_history_ends_at_price world_ok "ABC" []
           (snd (get_forecast world_ok "ABC" [])) _ january_rows);
    reflexivity.
Defined.

(** X19. When the provider's bars have valid dates in ascending order, the
    forecast endpoint has five answers and no other: 400 for no rows, 500 with
    one of the two fixed messages for a failed fit or a failed forecast, 500
    with the out-of-bounds error's text, or 200. *)
Theorem forecast_responses_on_valid_bars (w : World) (ticker : string)
    (rows : DataFrame) (log : list LogRecord) :
  history w (ticker ++ ".KA") "5y" = inr rows ->
  valid_index (Close_column rows) = true ->
  is_monotonic_increasing (Close_column rows) = true ->
  exists r log',
    get_forecast w ticker log = (Return r, log')
    /\ (r = mkResponse (JObj [("error", JStr ("Invalid ticker symbol: " ++ ticker))]) 400
        \/ r = mkResponse (JObj [("error", JStr "Failed to fit forecasting model")]) 500
        \/ r = mkResponse (JObj [("error", JStr "Failed to generate forecast")]) 500
        \/ r = mkResponse (JObj [("error", JStr (str (OutOfBoundsDatetime w)))]) 500
        \/ status r = 200%nat).
Proof.
  intros Hh Hv Hs. rewrite get_forecast_cases, Hh.
  destruct rows as [|row rows].
  { eexists _, _. split; [reflexivity|]. now left. }
  destruct (resample_monthly (Close_column (row :: rows))) as [monthly_data|] eqn:Hm.
  2:{ eexists _, _. split; [reflexivity|]. do 3 right. now left. }
  destruct (fitted w _) as [e|results].
  { eexists _, _. split; [reflexivity|]. right. now left. }
  destruct (forecast_method results 6) as [e|values].
  { eexists _, _. split; [reflexivity|]. right. right. now left. }
  pose proof (last_per_month_nonempty (Close_column (row :: rows)) Hv Hs) as Hne.
  apply resample_monthly_some in Hm as [Hm _]. rewrite Hm in Hne.
  destruct monthly_data as [|first monthly].
  { exfalso. apply Hne; [discriminate | reflexivity]. }
  destruct (date_range_M _ 7) as [dates|].
  - eexists _, _. split; [reflexivity|]. do 4 right. reflexivity.
  - eexists _, _. split; [reflexivity|]. do 3 right. now left.
Qed.

Lemma forecast_responses_on_valid_bars_witness :
  exists log',
    get_forecast world_late "ABC" []
    = (Return (mkResponse (JObj [("error", JStr (str out_of_bounds))]) 500), log').
Proof.
  destruct (forecast_responses_on_valid_bars world_late "ABC"
              [ mkRow (mkTimestamp 2261 12 30) 100%float ] [] eq_refl eq_refl eq_refl)
    as (r & log' & Hrun & _).
  exists log'. rewrite Hrun. vm_compute in Hrun.
  injection Hrun as <- _. reflexivity.
Defined.

Lemma month_end_year_range j j' :
  (0 <= j <= j')%Z -> ts_leb (month_end j') Timestamp_max = true ->
  (0 <= year (month_end j) <= 9999)%Z.
Proof.
  intros Hj Hle.
  assert (H := month_end_year_bounds j' ltac:(lia) Hle).
  unfold month_end in *. cbn [year] in *. div_mod_lia.
Qed.

(** X20. When the provider's bars have valid dates of years from 0 on, every
    date text of a 200 response names one month: no text occurs twice in
    [historicalDates] followed by [forecastDates]. *)
Theorem forecast_date_texts_distinct (w : World) (ticker : string)
    (log log' : list LogRecord) (r : Response) (rows : DataFrame) :
  get_forecast w ticker log = (Return r, log') -> status r = 200%nat ->
  history w (ticker ++ ".KA") "5y" = inr rows ->
  common_era (Close_column rows) = true ->
  exists historical future,
    field "historicalDates" (body r) = Some (JArr (map JStr historical))
    /\ field "forecastDates" (body r) = Some (JArr (map JStr future))
    /\ NoDup (historical ++ future)%list.
Proof.
  intros Hrun Hstatus Hrows Hera.
  destruct (get_forecast_200 _ _ _ _ _ Hrun Hstatus)
    as (row & rows' & first & monthly & results & vs & ds & Hh & Hm & _ & _ & Hd & ->).
  rewrite Hrows in Hh. injection Hh as ->.
  apply resample_monthly_some in Hm as [Hm _].
  destruct (last_per_month_range (Close_column (row :: rows')))
    as [Hnil | (lo & n & first_row & last_row & Hf & Hl & Hlo & Hhi & Hshape)];
    [congruence|].
  rewrite Hm in Hshape.
  assert (Hlabel : fst (last (first :: monthly) first) = month_end (lo + Z.of_nat n)).
  { rewrite Hshape.
    rewrite (last_map_nonempty _ (month_range lo (S n)) lo) by (cbn; discriminate).
    now rewrite month_range_last. }
  rewrite Hlabel in Hd. pose proof (date_range_M_bounded _ _ _ Hd) as Hbound.
  apply date_range_M_month_end in Hd. subst ds.
  change (tl (map month_end (month_range (lo + Z.of_nat n) 7)))
    with (map month_end (month_range (lo + Z.of_nat n + 1) 6)).
  set (k := Nat.min 6 (List.length vs)).
  exists (map strftime (map month_end (month_range lo (S n)))),
         (map strftime (map month_end (month_range (lo + Z.of_nat (S n)) k))).
  cbn [body forecast_payload field lookup String.eqb Ascii.eqb Bool.eqb].
  split; [| split].
  - rewrite Hshape. unfold Series_index. rewrite !map_map. reflexivity.
  - rewrite <- (combine_fst_month_ends _ 6 vs), !map_map.
    now replace (lo + Z.of_nat (S n))%Z with (lo + Z.of_nat n + 1)%Z by lia.
  - rewrite <- !map_app, month_range_app.
    assert (Hlo0 : (0 <= lo)%Z) by (rewrite Hlo; now apply (common_era_month_index _ _ Hera)).
    assert (Hmax : ts_leb (month_end (lo + Z.of_nat n + 6)) Timestamp_max = true).
    { rewrite Forall_forall in Hbound. apply Hbound. apply in_map.
      apply month_range_In. lia. }
    assert (Hk : (k <= 6)%nat) by (unfold k; lia).
    apply NoDup_map_injective_on; [| apply NoDup_month_ends].
    intros a b Ha Hb. apply in_map_iff in Ha as (ja & <- & Hja).
    apply in_map_iff in Hb as (jb & <- & Hjb).
    apply month_range_In in Hja, Hjb.
    apply strftime_inj; try apply valid_date_month_end;
      apply (month_end_year_range _ (lo + Z.of_nat n + 6)); try exact Hmax; lia.
Qed.

Lemma forecast_date_texts_distinct_witness :
  exists historical future,
    field "historicalDates" (body (response_of world_ok "ABC"))
    = Some (JArr (map JStr historical))
    /\ field "forecastDates" (body (response_of world_ok "ABC"))
       = Some (JArr (map JStr future))
    /\ NoDup (historical ++ future)%list.
Proof.
  apply (forecast_date_texts_distinct world_ok "ABC" []
           (snd (get_forecast world_ok "ABC" [])) _ january_rows);
    reflexivity.
Defined.

(* ================================================================== *)
(** ** The resampler *)
(* ================================================================== *)

Lemma last_valid_last_number vs : last_number vs (last_valid vs).
Proof.
  induction vs as [|x vs IH] using rev_ind.
  - right. split; reflexivity.
  - unfold last_valid in *. rewrite rev_unit. cbn [find].
    destruct (is_nan x) eqn:Hx; cbn [negb].
    + destruct IH as [(before & after & Hvs & Hnum & Hafter) | [Hall Hnan]].
      * left. exists before, (after ++ [x])%list. repeat split.
        -- rewrite Hvs at 1. now rewrite <- app_assoc.
        -- exact Hnum.
        -- rewrite forallb_app, Hafter. cbn. now rewrite Hx.
      * right. split; [| exact Hnan].
        rewrite forallb_app, Hall. cbn. now rewrite Hx.
    + left. exists vs, []. repeat split. exact Hx.
Qed.

Lemma ts_leb_of_month_index a b :
  valid_date a = true -> valid_date b = true ->
  (month_index a < month_index b)%Z -> ts_leb a b = true.
Proof.
  unfold valid_date, ts_leb, ts_compare, month_index.
  destruct a as [ya ma da], b as [yb mb db]. cbn [year month day].
  rewrite !andb_true_iff, !Z.leb_le. intros [[[Ha1 Ha12] _] _] [[[Hb1 Hb12] _] _] Hlt.
  destruct (Z.compare_spec ya yb) as [Hy|Hy|Hy]; [| reflexivity | lia].
  destruct (Z.compare_spec ma mb) as [Hm|Hm|Hm]; [lia | reflexivity | lia].
Qed.

Lemma already_monthly_sorted s :
  already_monthly s = true ->
  valid_index s = true /\ is_monotonic_increasing s = true.
Proof.
  unfold already_monthly. rewrite andb_true_iff. intros [Hv Hm].
  assert (Hvalid : valid_index s = true).
  { unfold valid_index. rewrite forallb_forall in *. intros row Hin.
    specialize (Hv row Hin). now apply andb_true_iff in Hv as [Hv _]. }
  split; [exact Hvalid|].
  clear Hv. induction s as [|x s IH]; [reflexivity|].
  destruct s as [|y s]; [reflexivity|].
  change (months_increasing (x :: y :: s))
    with ((month_index (fst x) <? month_index (fst y))%Z && months_increasing (y :: s))
    in Hm.
  apply andb_true_iff in Hm as [Hxy Hm]. apply Z.ltb_lt in Hxy.
  cbn [valid_index forallb] in Hvalid.
  apply andb_true_iff in Hvalid as [Hx Hrest].
  pose proof Hrest as Hy. cbn [forallb] in Hy. apply andb_true_iff in Hy as [Hy _].
  change (is_monotonic_increasing (x :: y :: s))
    with (ts_leb (fst x) (fst y) && is_monotonic_increasing (y :: s)).
  apply andb_true_iff. split; [now apply ts_leb_of_month_index | now apply IH].
Qed.

(** The rows of [last_per_month] for bars in ascending order: one row per
    month from the month of the first bar to the month of the last bar. *)
Lemma last_per_month_sorted_rows first rest :
  valid_index (first :: rest) = true ->
  is_monotonic_increasing (first :: rest) = true ->
  exists n,
    last_per_month (first :: rest)
    = map (bin_row (first :: rest)) (month_range (month_index (fst first)) (S n))
    /\ (month_index (fst first) + Z.of_nat n)%Z
       = month_index (fst (last (first :: rest) first)).
Proof.
  intros Hv Hs. rewrite last_per_month_bins, (sort_index_sorted _ Hs).
  pose proof (sorted_month_bounds rest first Hv Hs first (or_introl eq_refl)) as Hb.
  unfold month_bins.
  destruct (Z.to_nat _) as [|n] eqn:Hn; [lia|].
  exists n. split; [reflexivity | lia].
Qed.

Lemma edges_representable_rows value lo n :
  edges_representable (map (month_row value) (month_range lo (S n)))
  = representable (minus_month_end (month_end lo))
    && representable (plus_month_end (month_end (lo + Z.of_nat n))).
Proof.
  assert (Hlast : last (map (month_row value) (month_range lo (S n))) (month_row value lo)
                  = month_row value (lo + Z.of_nat n)).
  { rewrite (last_map_nonempty (month_row value) (month_range lo (S n)) lo)
      by (cbn; discriminate).
    now rewrite month_range_last. }
  unfold edges_representable. cbn [month_range map] in *. rewrite Hlast. reflexivity.
Qed.

(** C7. Monthly resampling is idempotent: on a series that is already monthly
    (month-end labels, at most one row per calendar month), resampling twice
    gives what resampling once gives, the out-of-bounds error included. *)
Theorem resample_monthly_twice (s : Series) :
  already_monthly s = true ->
  match resample_monthly s with
  | Some monthly => resample_monthly monthly
  | None => None
  end = resample_monthly s.
Proof.
  intros Hmonthly. destruct s as [|first rest]; [reflexivity|].
  destruct (already_monthly_sorted _ Hmonthly) as [Hv Hs].
  destruct (resample_monthly (first :: rest)) as [monthly|] eqn:Hr; [| reflexivity].
  apply resample_monthly_some in Hr as [Hp He]. subst monthly.
  rewrite (sort_index_sorted _ Hs) in He.
  rewrite <- (last_per_month_idempotent (first :: rest)) at 2.
  apply resample_monthly_representable.
  destruct (last_per_month_sorted_rows first rest Hv Hs) as (n & Hrows & Hhi).
  rewrite Hrows.
  set (value := fun m => last_valid (tolist (filter (in_month m) (first :: rest)))).
  change (bin_row (first :: rest)) with (month_row value).
  rewrite (sort_index_sorted _ (monthly_rows_monotonic value _ _)).
  rewrite edges_representable_rows.
  assert (Hend : forall row, In row (first :: rest) ->
                             month_end (month_index (fst row)) = fst row).
  { unfold already_monthly in Hmonthly. apply andb_true_iff in Hmonthly as [Hall _].
    rewrite forallb_forall in Hall. intros row Hin. specialize (Hall row Hin).
    apply andb_true_iff in Hall as [Hrv Hre]. now apply month_end_of_month_index. }
  rewrite Hhi, (Hend first (or_introl eq_refl)).
  rewrite (Hend (last (first :: rest) first)) by (apply last_In; discriminate).
  exact He.
Qed.

Lemma resample_monthly_twice_witness :
  match resample_monthly monthly_sample with
  | Some monthly => resample_monthly monthly
  | None => None
  end = resample_monthly monthly_sample.
Proof. apply (resample_monthly_twice monthly_sample). reflexivity. Defined.

(** C8, as written, fails twice. A bar whose close is missing is skipped: the
    month keeps the last close that is a number, not the close of its last
    row. And the call has an error path: for a bar of April 2262 the month-end
    after it is past [Timestamp.max], and the call raises. *)
Lemma resample_monthly_not_as_written :
  ~ resample_contract_as_written missing_close_sample
  /\ ~ resample_contract_as_written past_max_sample.
Proof.
  split; intros (monthly & Hr & Hrows).
  - vm_compute in Hr. injection Hr as <-.
    specialize (Hrows (mkTimestamp 2024 1 31, nan) (or_intror (or_introl eq_refl))).
    destruct Hrows as [H | []].
    apply (f_equal (fun p => is_nan (snd p))) in H. vm_compute in H. discriminate H.
  - vm_compute in Hr. discriminate Hr.
Qed.

(** C8, amended. On a daily series with valid dates in ascending order,
    [resample_monthly] raises the out-of-bounds error when the month-end
    before the first row or the month-end after the last row is not a
    timestamp, and returns otherwise. What it returns has one row per calendar
    month from the month of the first row to the month of the last, labelled
    by the month-end; the row of a month with rows holds the last close of
    that month that is a number, which is the close of the last row of the
    month whenever that close is a number. The empty series gives the empty
    series, and the closes 100, 102, 101, 105 of one month give a single row
    with 105. *)
Theorem resample_monthly_keeps_last_of_month (s : Series) :
  valid_index s = true -> is_monotonic_increasing s = true ->
  resample_monthly [] = Some []
  /\ (edges_representable s = false -> resample_monthly s = None)
  /\ (edges_representable s = true ->
      exists monthly,
        resample_monthly s = Some monthly
        /\ Series_index monthly = map month_end (month_bins s)
        /\ NoDup (Series_index monthly)
        /\ (forall row, In row s ->
              let m := month_index (fst row) in
              let group := filter (in_month m) s in
              exists v,
                In (month_end m, v) monthly
                /\ last_number (tolist group) v
                /\ (is_nan (snd (last group row)) = false -> v = snd (last group row)))
        /\ (forall t v, In (t, v) monthly ->
              exists m, t = month_end m
                        /\ last_number (tolist (filter (in_month m) s)) v))
  /\ resample_monthly (Close_column january_rows) = Some [(mkTimestamp 2024 1 31, 105%float)].
Proof.
  intros Hv Hs. split; [reflexivity|]. split; [| split; [| reflexivity]].
  - intros He. apply resample_monthly_out_of_bounds.
    now rewrite (sort_index_sorted s Hs).
  - intros He. exists (last_per_month s). split.
    { apply resample_monthly_representable. now rewrite (sort_index_sorted s Hs). }
    rewrite last_per_month_bins, (sort_index_sorted s Hs).
    split; [| split; [| split]].
    + unfold Series_index. rewrite map_map. reflexivity.
    + unfold Series_index. rewrite map_map. cbn [bin_row fst].
      destruct (month_bins_range s) as (lo & n & ->). apply NoDup_month_ends.
    + intros row Hin. cbv zeta.
      exists (last_valid (tolist (filter (in_month (month_index (fst row))) s))).
      split; [| split].
      * apply in_map_iff. exists (month_index (fst row)).
        split; [reflexivity | now apply month_bins_In].
      * apply last_valid_last_number.
      * intros Hnum.
        assert (Hne : filter (in_month (month_index (fst row))) s <> []).
        { intros Hnil.
          assert (Hf : In row (filter (in_month (month_index (fst row))) s)).
          { apply filter_In. split; [exact Hin|]. unfold in_month. apply Z.eqb_refl. }
          rewrite Hnil in Hf. exact Hf. }
        unfold tolist.
        rewrite <- (last_map_nonempty snd _ row (snd row)) in * by exact Hne.
        apply last_valid_last; [| exact Hnum].
        destruct (filter _ s); [congruence | discriminate].
    + intros t v Hin. apply in_map_iff in Hin as (m & Hrow & _).
      exists m. unfold bin_row in Hrow. injection Hrow as <- <-.
      split; [reflexivity | apply last_valid_last_number].
Qed.

Lemma resample_monthly_keeps_last_of_month_witness :
  resample_monthly past_max_sample = None
  /\ exists v,
       In (mkTimestamp 2024 1 31, v) [(mkTimestamp 2024 1 31, 100%float)]
       /\ last_number [100%float; nan] v.
Proof.
  split.
  - apply (proj1 (proj2 (resample_monthly_keeps_last_of_month past_max_sample
                           eq_refl eq_refl))).
    reflexivity.
  - destruct (proj1 (proj2 (proj2 (resample_monthly_keeps_last_of_month
                                     missing_close_sample eq_refl eq_refl))) eq_refl)
      as (monthly & Hr & _ & _ & Hrows & _).
    vm_compute in Hr. injection Hr as <-.
    destruct (Hrows (mkTimestamp 2024 1 31, nan) (or_intror (or_introl eq_refl)))
      as (v & Hin & Hlast & _).
    exists v. split; [exact Hin | exact Hlast].
Defined.

(** A missing close is skipped: [last()] takes the last close that is a
    number. *)
Example resample_monthly_skips_missing_close :
  resample_monthly missing_close_sample = Some [(mkTimestamp 2024 1 31, 100%float)].
Proof. vm_compute. reflexivity. Qed.

(** A month without rows between two months with rows gets a NaN row. *)
Example resample_monthly_fills_gap :
  resample_monthly monthly_sample
  = Some [ (mkTimestamp 2024 1 31, 105%float);
           (mkTimestamp 2024 2 29, nan);
           (mkTimestamp 2024 3 31, 110%float) ].
Proof. vm_compute. reflexivity. Qed.

(** A bar of September 1677: the month-end before it, 1677-08-31, is before
    [Timestamp.min]. *)
Example resample_monthly_before_min : resample_monthly before_min_sample = None.
Proof. vm_compute. reflexivity. Qed.

(** X12. Resampling never invents a price: every value of the monthly series
    that is a number is the close of a row of the input, and that row lies in
    the month the monthly row is labelled with. *)
Theorem resample_monthly_values_from_input (s monthly : Series)
    (t : Timestamp) (v : float) :
  resample_monthly s = Some monthly ->
  In (t, v) monthly -> is_nan v = false ->
  exists t', In (t', v) s /\ t = month_end (month_index t').
Proof.
  intros Hr Hin Hnum. apply resample_monthly_some in Hr as [<- _].
  now apply last_per_month_values_from_input.
Qed.

Lemma resample_monthly_values_from_input_witness :
  exists t', In (t', 108%float) shuffled_sample
             /\ mkTimestamp 2024 2 29 = month_end (month_index t').
Proof.
  apply (resample_monthly_values_from_input shuffled_sample
           [(mkTimestamp 2024 1 31, 104%float); (mkTimestamp 2024 2 29, 108%float)]
           (mkTimestamp 2024 2 29) 108%float).
  - reflexivity.
  - right. left. reflexivity.
  - reflexivity.
Defined.

(** X15. When resampling a price series (ascending valid dates, every close a
    number) returns, the monthly series ends with the latest close: its last
    row is labelled with the end of the month of the last bar and holds the
    close of the last bar. *)
Theorem resample_monthly_latest_close (s monthly : Series) (d d' : Timestamp * float) :
  resample_monthly s = Some monthly ->
  price_series s = true -> s <> [] ->
  fst (last monthly d) = month_end (month_index (fst (last s d')))
  /\ snd (last monthly d) = snd (last s d').
Proof.
  intros Hr Hp Hne. apply resample_monthly_some in Hr as [<- _].
  rewrite (last_per_month_last_row s d d' Hp Hne). split; reflexivity.
Qed.

Lemma resample_monthly_latest_close_witness :
  fst (last [(mkTimestamp 2024 1 31, 105%float)] (mkTimestamp 0 0 0, nan))
  = mkTimestamp 2024 1 31
  /\ snd (last [(mkTimestamp 2024 1 31, 105%float)] (mkTimestamp 0 0 0, nan))
     = 105%float.
Proof.
  apply (resample_monthly_latest_close (Close_column january_rows)
           [(mkTimestamp 2024 1 31, 105%float)]
           (mkTimestamp 0 0 0, nan) (mkTimestamp 0 0 0, nan)).
  - reflexivity.
  - reflexivity.
  - discriminate.
Defined.

(** X16. A monthly series of numbers with month-end labels and no skipped
    month is left unchanged by resampling: whenever the call returns, it
    returns the series itself, and it returns whenever the month-end before
    the first label and the month-end after the last label are timestamps. *)
Theorem resample_monthly_fixed_point (s : Series) :
  already_monthly s = true -> consecutive_months s = true -> no_missing s = true ->
  (forall monthly, resample_monthly s = Some monthly -> monthly = s)
  /\ (edges_representable s = true -> resample_monthly s = Some s).
Proof.
  intros Hm Hc Hnum.
  pose proof (last_per_month_fixed_point s Hm Hc Hnum) as Hfix.
  destruct (already_monthly_sorted s Hm) as [_ Hs]. split.
  - intros monthly Hr. apply resample_monthly_some in Hr as [<- _]. exact Hfix.
  - intros He. rewrite <- Hfix at 2. apply resample_monthly_representable.
    now rewrite (sort_index_sorted s Hs).
Qed.

Lemma resample_monthly_fixed_point_witness :
  resample_monthly quarter_sample = Some quarter_sample.
Proof.
  apply (proj2 (resample_monthly_fixed_point quarter_sample eq_refl eq_refl eq_refl)).
  reflexivity.
Defined.
